(** * dbtools: a struct-to-SQL-row mapper (dbtools.go)

    Shallow embedding of the library half of [dbtools.go] (the [TableMap]
    type, its column binders and its statement builder) and the properties
    of it that the specification states.

    Conventions of the embedding.
    - A Go [string] is a [string] (a sequence of bytes).
    - A value of a Go function type [func() sql.NullString] is a function
      [unit -> option sql.NullString]: calling it either returns a value or
      panics ([None]).  The nil function value is the function that always
      panics.  Accessors are closures over the user's record; they are
      taken to be deterministic and not to touch the [TableMap].
    - Methods on [*TableMap] run in the monad [M]: they receive the
      [TableMap] behind the pointer and give it back, or panic.
    - [[]interface{}] holding strings is [list string]; a nil slice and an
      empty slice are both [[]]. *)

From stdpp Require Import base option list strings gmap.
From Stdlib Require Import ZArith Ascii String.

Local Open Scope string_scope.
Local Open Scope list_scope.

(** ** The parts of Go's standard library the code calls *)

(** [strings.Join(elems, sep)]. *)
Fixpoint Join (elems : list string) (sep : string) : string :=
  match elems with
  | [] => ""
  | [x] => x
  | x :: rest => x +:+ sep +:+ Join rest sep
  end.

(** The line feed that ends the format string of [CreateSql]. *)
Definition LF : string := String (ascii_of_nat 10) EmptyString.

Module strconv.

Definition is_digit (c : ascii) : bool :=
  let n := nat_of_ascii c in (48 <=? n)%nat && (n <=? 57)%nat.

Definition digit_val (c : ascii) : Z := Z.of_nat (nat_of_ascii c) - 48.

(** The digits loop of [ParseUint] in base 10: [None] is a syntax error. *)
Fixpoint digits (s : string) (acc : Z) : option Z :=
  match s with
  | EmptyString => Some acc
  | String c rest =>
      if is_digit c then digits rest (acc * 10 + digit_val c) else None
  end.

Definition minInt : Z := - 2 ^ 63.
Definition maxInt : Z := 2 ^ 63 - 1.

(** [strconv.Atoi] for a 64-bit [int]: an optional sign, then at least one
    decimal digit, and a value that fits; [None] stands for [err != nil]
    (a syntax error or a range error). *)
Definition Atoi (s : string) : option Z :=
  let '(neg, body) :=
    match s with
    | String "-" rest => (true, rest)
    | String "+" rest => (false, rest)
    | _ => (false, s)
    end in
  match body with
  | EmptyString => None
  | _ =>
      match digits body 0 with
      | None => None
      | Some n =>
          let v := if neg then (- n)%Z else n in
          if (minInt <=? v)%Z && (v <=? maxInt)%Z then Some v else None
      end
  end.

(** The decimal digits of a positive number, most significant first. *)
Fixpoint utoa (fuel : nat) (n : Z) (acc : string) : string :=
  match fuel with
  | O => acc
  | S fuel' =>
      let acc' := String (ascii_of_nat (Z.to_nat (48 + n mod 10))) acc in
      if (n <? 10)%Z then acc' else utoa fuel' (n / 10) acc'
  end.

(** [strconv.Itoa]. *)
Definition Itoa (i : Z) : string :=
  if (i <? 0)%Z then "-" +:+ utoa 20 (- i) "" else utoa 20 i "".

End strconv.

Module sql.

(** [sql.NullString]. *)
Record NullString : Type := { String : string; Valid : bool }.

(** Go's [error]; [nil] is [None] of [option error]. *)
Definition error : Type := string.

(** A result row, as the driver delivers it. *)
Definition Row : Type := list string.

(** [*sql.Rows]: the rows the driver has still to deliver, the error at
    which the driver's iteration stops after them (if any), the row that
    [Scan] reads, the error that [Err] reports, and whether the cursor
    has been released. *)
Record Rows : Type := {
  avail : list Row;
  failure : option error;
  current : option Row;
  lasterr : option error;
  closed : bool
}.

Definition open (rows : list Row) (fail : option error) : Rows :=
  {| avail := rows; failure := fail; current := None;
     lasterr := None; closed := false |}.

(** [rows.Close()]. *)
Definition Close (rs : Rows) : Rows :=
  {| avail := avail rs; failure := failure rs; current := current rs;
     lasterr := lasterr rs; closed := true |}.

(** [rows.Next()]: true with the next row made current; false at the end
    of the rows or when the driver fails, in which case the error is kept
    for [Err] and the cursor is closed. *)
Definition Next (rs : Rows) : bool * Rows :=
  if closed rs then (false, rs)
  else
    match avail rs with
    | r :: rest =>
        (true, {| avail := rest; failure := failure rs; current := Some r;
                  lasterr := lasterr rs; closed := false |})
    | [] =>
        (false, {| avail := []; failure := failure rs; current := current rs;
                   lasterr := failure rs; closed := true |})
    end.

(** [rows.Err()]. *)
Definition Err (rs : Rows) : option error := lasterr rs.

(** What [rows.Scan] reads: the current row, or nothing ([Scan] reports an
    error) when the cursor is closed or [Next] has not been called. *)
Definition Scan (rs : Rows) : option Row :=
  if closed rs then None else current rs.

(** [*sql.DB], reduced to what [Query] answers: an error, or the rows and
    the iteration failure of the cursor it opens. *)
Record DB : Type := {
  Query : string -> list string -> error + (list Row * option error)
}.

End sql.

(** ** The library's types *)

(** [type TableMapInput func() sql.NullString]. *)
Definition TableMapInput : Type := unit -> option sql.NullString.

(** The nil function value: calling it panics. *)
Definition nilInput : TableMapInput := fun _ => None.

Record TableMapField : Type := { Val : TableMapInput }.

(** The zero value of [TableMapField], which a Go map yields for a key it
    does not hold. *)
Definition zeroField : TableMapField := {| Val := nilInput |}.

Record TableMap : Type := {
  DB : sql.DB;
  TableName : string;
  Fields : gmap string TableMapField;
  fieldOrder : list string
}.

(** [f.Fields[name]]. *)
Definition index (fields : gmap string TableMapField) (name : string)
  : TableMapField :=
  default zeroField (fields !! name).

(** ** Methods on [*TableMap] as state-passing computations *)

Definition M (A : Type) : Type := TableMap -> option (A * TableMap).

Definition ret {A} (a : A) : M A := fun f => Some (a, f).

Definition bind {A B} (c : M A) (k : A -> M B) : M B :=
  fun f => match c f with
           | Some (a, f') => k a f'
           | None => None
           end.

(** Reading a field of the receiver. *)
Definition read {A} (proj : TableMap -> A) : M A := fun f => Some (proj f, f).

(** Calling a function value. *)
Definition call (input : TableMapInput) : M sql.NullString :=
  fun f => match input tt with
           | Some v => Some (v, f)
           | None => None
           end.

(** [f.Fields[name] = m]. *)
Definition setField (name : string) (m : TableMapField) : M unit :=
  fun f => Some (tt, {| DB := DB f; TableName := TableName f;
                        Fields := <[name := m]> (Fields f);
                        fieldOrder := fieldOrder f |}).

(** [f.fieldOrder = append(f.fieldOrder, name)]. *)
Definition appendOrder (name : string) : M unit :=
  fun f => Some (tt, {| DB := DB f; TableName := TableName f;
                        Fields := Fields f;
                        fieldOrder := fieldOrder f ++ [name] |}).

Notation "x <- c ;; k" := (bind c (fun x => k))
  (at level 100, c at next level, right associativity).
Notation "c ;;; k" := (bind c (fun _ => k))
  (at level 100, right associativity).

(** [for _, x := range l { acc = body(acc, x) }]. *)
Fixpoint forRange {A B} (l : list B) (body : A -> B -> M A) (acc : A) : M A :=
  match l with
  | [] => ret acc
  | x :: rest => acc' <- body acc x ;; forRange rest body acc'
  end.

Definition NewTableMap (db : sql.DB) (tableName : string) : TableMap :=
  {| DB := db; TableName := tableName; Fields := ∅; fieldOrder := [] |}.

Definition getFieldsHelper (inclnull : bool)
  : M (list string * list string * list string) :=
  order <- read fieldOrder ;;
  acc <-
    forRange order
      (fun '(cols, vals) fieldName =>
         fields <- read Fields ;;
         v <- call (Val (index fields fieldName)) ;;
         if negb (sql.Valid v) && negb inclnull then ret (cols, vals)
         else
           let cols := cols ++ [fieldName] in
           if sql.Valid v then ret (cols, vals ++ [sql.String v])
           else ret (cols, vals ++ ["NULL"]))
      ([], []) ;;
  let '(cols, vals) := acc in
  placeholders <-
    forRange cols (fun placeholders _ => ret (placeholders ++ ["?"])) [] ;;
  ret (cols, placeholders, vals).

Definition GetFieldsWithoutNulls : M (list string * list string * list string) :=
  getFieldsHelper false.

Definition GetFields : M (list string * list string * list string) :=
  getFieldsHelper true.

(** [Print]: the lines written to standard output.  Go leaves the order in
    which [range] visits a map unspecified; the lines come here in the
    order of [map_to_list]. *)
Definition Print : M (list string) :=
  fields <- read Fields ;;
  forRange (map_to_list fields)
    (fun out '(colname, slfield) =>
       v <- call (Val slfield) ;;
       let output := if sql.Valid v then sql.String v else "<null>" in
       ret (out ++ [colname +:+ " : " +:+ output +:+ LF]))
    [].

Definition CreateSql : M (string * list string) :=
  r <- GetFields ;;
  let '(cols, placeholders, vals) := r in
  tableName <- read TableName ;;
  let sql := "INSERT INTO " +:+ tableName +:+ " (" +:+ Join cols ","
             +:+ ") VALUES (" +:+ Join placeholders "," +:+ ")" +:+ LF in
  ret (sql, vals).

(** [placeholders[i]]: indexing past the end of a slice panics. *)
Definition at_index (placeholders : list string) (i : nat) : M string :=
  fun f => match placeholders !! i with
           | Some p => Some (p, f)
           | None => None
           end.

Definition FindSql : M (string * list string) :=
  r1 <- GetFields ;;
  let '(allcols, _, _) := r1 in
  r2 <- GetFieldsWithoutNulls ;;
  let '(cols, placeholders, vals) := r2 in
  where_ <-
    forRange (imap (fun i col => (i, col)) cols)
      (fun where_ '(i, col) =>
         p <- at_index placeholders i ;;
         let cond := col +:+ "=" +:+ p in
         ret (where_ ++ [cond]))
      [] ;;
  tableName <- read TableName ;;
  let sql := "SELECT " +:+ Join allcols "," +:+ " FROM " +:+ tableName
             +:+ " WHERE " +:+ Join where_ "," in
  ret (sql, vals).

(** One call of the caller's row callback [func(rows *sql.Rows) error].
    The callback is handed the cursor itself, not a copy of the row: before
    it returns its error it may scan the current row, advance the cursor,
    ask for the cursor's error and close the cursor, as often as it likes
    and depending on what it has seen so far.  [s] is what the call leaves
    in the caller's own state of type [St], the variables that the closure
    captures.  The callback is taken not to reach the [TableMap]. *)
Inductive Callback (St : Type) : Type :=
  | Return (err : option sql.error) (s : St)
  | CallScan (k : option sql.Row -> Callback St)
  | CallNext (k : bool -> Callback St)
  | CallErr (k : option sql.error -> Callback St)
  | CallClose (k : Callback St).
Arguments Return {St} _ _.
Arguments CallScan {St} _.
Arguments CallNext {St} _.
Arguments CallErr {St} _.
Arguments CallClose {St} _.

(** The callback, as a function of the caller's state before the call. *)
Definition Parser (St : Type) : Type := St -> Callback St.

(** [parser(rows)]: the call runs against the cursor and gives its error,
    the cursor as it leaves it and the caller's state. *)
Fixpoint runCallback {St} (c : Callback St) (rows : sql.Rows)
  : option sql.error * sql.Rows * St :=
  match c with
  | Return err s => (err, rows, s)
  | CallScan k => runCallback (k (sql.Scan rows)) rows
  | CallNext k =>
      let '(ok, rows1) := sql.Next rows in runCallback (k ok) rows1
  | CallErr k => runCallback (k (sql.Err rows)) rows
  | CallClose k => runCallback k (sql.Close rows)
  end.

(** [for rows.Next() { err := parser(rows); if err != nil { return err } }]
    followed by [return nil].  The loop goes on with the cursor as the
    callback left it.  [fuel] bounds the number of iterations; [None] means
    the bound was too small. *)
Fixpoint forNext {St} (fuel : nat) (parser : Parser St) (rows : sql.Rows)
         (s : St) : option (option sql.error * sql.Rows * St) :=
  match fuel with
  | O => None
  | S fuel' =>
      let '(ok, rows1) := sql.Next rows in
      if ok then
        let '(err, rows2, s1) := runCallback (parser s) rows1 in
        match err with
        | Some e => Some (Some e, rows2, s1)
        | None => forNext fuel' parser rows2 s1
        end
      else Some (None, rows1, s)
  end.

(** What a call of [Find] leaves behind: the error it returns, the caller's
    state, and the cursor ([None] when [Query] opened none). *)
Record FindResult (St : Type) : Type := {
  returned : option sql.error;
  caller : St;
  cursor : option sql.Rows
}.
Arguments returned {St} _.
Arguments caller {St} _.
Arguments cursor {St} _.

Definition Find {St} (parser : Parser St) (s : St) : M (FindResult St) :=
  q <- FindSql ;;
  let '(sql, vals) := q in
  db <- read DB ;;
  match sql.Query db sql vals with
  | inl err => ret {| returned := Some err; caller := s; cursor := None |}
  | inr (delivered, fail) =>
      let rows := sql.open delivered fail in
      fun f =>
        match forNext (S (List.length delivered)) parser rows s with
        | Some (err, rows', s') =>
            (* the deferred [rows.Close()] *)
            Some ({| returned := err; caller := s';
                     cursor := Some (sql.Close rows') |}, f)
        | None => None
        end
  end.

(** ** Column binders *)

Definition StringCol (name : string) (input : TableMapInput) : M unit :=
  let m := {| Val := input |} in
  setField name m ;;;
  appendOrder name.

Definition null : sql.NullString := {| sql.String := ""; sql.Valid := false |}.

(** The closure [inputChecked] that [IntCol] builds around [input]. *)
Definition inputChecked (input : TableMapInput) : TableMapInput :=
  fun _ =>
    match input tt with
    | None => None
    | Some v =>
        match strconv.Atoi (sql.String v) with
        | None => Some null
        | Some _ => if sql.Valid v then Some v else Some null
        end
    end.

Definition IntCol (name : string) (input : TableMapInput) : M unit :=
  StringCol name (inputChecked input).

(** [FromString(v *string)]; a nil pointer is [None]. *)
Definition FromString (v : option string) : TableMapInput :=
  fun _ =>
    match v with
    | None => Some null
    | Some s => Some {| sql.String := s; sql.Valid := true |}
    end.

(** [FromInt(v *int)]. *)
Definition FromInt (v : option Z) : TableMapInput :=
  fun _ =>
    match v with
    | None => Some null
    | Some i => Some {| sql.String := strconv.Itoa i; sql.Valid := true |}
    end.

(** ** The user code of the example program *)

Definition TABLE_NAME : string := "messages".

Record Message : Type := {
  ID : option Z;
  Title : option string;
  Body : option string
}.

Definition toTableMap (m : Message) (db : sql.DB) : option TableMap :=
  snd <$> (IntCol "id" (FromInt (ID m)) ;;;
           StringCol "title" (FromString (Title m)) ;;;
           StringCol "body" (FromString (Body m)))
          (NewTableMap db TABLE_NAME).

(** A bind call of the caller, and a sequence of them run against a fresh
    [TableMap]. *)
Inductive BindCall : Type :=
  | BindString (name : string) (input : TableMapInput)
  | BindInt (name : string) (input : TableMapInput).

Definition bind_name (b : BindCall) : string :=
  match b with BindString name _ | BindInt name _ => name end.

Definition bind_input (b : BindCall) : TableMapInput :=
  match b with BindString _ input | BindInt _ input => input end.

Definition do_bind (b : BindCall) : M unit :=
  match b with
  | BindString name input => StringCol name input
  | BindInt name input => IntCol name input
  end.

Definition bindAll (bs : list BindCall) : M unit :=
  forRange bs (fun _ b => do_bind b) tt.

(** ** Reading a binding set *)

(** [f.Fields[name].Val()]. *)
Definition field_val (f : TableMap) (name : string) : option sql.NullString :=
  Val (index (Fields f) name) tt.

(** Every column of the order has a callable accessor that returns. *)
Definition accessors_return (f : TableMap) : Prop :=
  Forall (fun name => is_Some (field_val f name)) (fieldOrder f).

Definition value_of (f : TableMap) (name : string) : sql.NullString :=
  default null (field_val f name).

Definition present (f : TableMap) (name : string) : bool :=
  sql.Valid (value_of f name).

(** The element of the value list that a column contributes. *)
Definition value_text (f : TableMap) (name : string) : string :=
  if present f name then sql.String (value_of f name) else "NULL".

(** The columns that [getFieldsHelper inclnull] keeps. *)
Definition kept (inclnull : bool) (f : TableMap) : list string :=
  List.filter (fun name => present f name || inclnull) (fieldOrder f).

Definition present_cols (f : TableMap) : list string := kept false f.

Definition equality (col : string) : string := col +:+ "=" +:+ "?".

(** The texts that [CreateSql] and [FindSql] format. *)
Definition insert_text (tableName : string) (cols placeholders : list string)
  : string :=
  "INSERT INTO " +:+ tableName +:+ " (" +:+ Join cols ","
  +:+ ") VALUES (" +:+ Join placeholders "," +:+ ")" +:+ LF.

Definition select_text (tableName : string) (allcols where_ : list string)
  : string :=
  "SELECT " +:+ Join allcols "," +:+ " FROM " +:+ tableName
  +:+ " WHERE " +:+ Join where_ ",".

(** ** The binding set that bind calls leave *)

(** The accessor that a bind call stores in the field map. *)
Definition stored_input (b : BindCall) : TableMapInput :=
  match b with
  | BindString _ input => input
  | BindInt _ input => inputChecked input
  end.

Definition bound (f : TableMap) (name : string) (input : TableMapInput)
  : TableMap :=
  {| DB := DB f; TableName := TableName f;
     Fields := <[name := {| Val := input |}]> (Fields f);
     fieldOrder := fieldOrder f ++ [name] |}.

(** The binding set that a sequence of bind calls leaves. *)
Definition bound_all (bs : list BindCall) (f : TableMap) : TableMap :=
  fold_left (fun f b => bound f (bind_name b) (stored_input b)) bs f.

(** A computation that gives back the receiver as it was. *)
Definition preserves {A} (c : M A) : Prop :=
  forall f a f', c f = Some (a, f') -> f' = f.

(** The cursor as the callback sees it at row [r], with [rest] still to
    come. *)
Definition at_row (fail : option sql.error) (r : sql.Row) (rest : list sql.Row)
  : sql.Rows :=
  {| sql.avail := rest; sql.failure := fail; sql.current := Some r;
     sql.lasterr := None; sql.closed := false |}.

(** The caller's state after one call of the callback per row, in the order
    of the rows. *)
Fixpoint visit {St} (parser : Parser St) (fail : option sql.error)
         (rows : list sql.Row) (s : St) : St :=
  match rows with
  | [] => s
  | r :: rest =>
      visit parser fail rest (snd (runCallback (parser s) (at_row fail r rest)))
  end.

(** A callback that never returns an error. *)
Definition never_fails {St} (parser : Parser St) : Prop :=
  forall s rows, fst (fst (runCallback (parser s) rows)) = None.

(** A callback that leaves the cursor as it found it: it may scan the
    current row, but it neither advances nor closes the cursor. *)
Definition reads_only {St} (parser : Parser St) : Prop :=
  forall s rows, snd (fst (runCallback (parser s) rows)) = rows.

(** ** Binding sets used as examples *)

(** A database that answers every query with one row and then fails. *)
Definition flakyDB : sql.DB :=
  {| sql.Query := fun _ _ => inr ([["1"; "My Title"; "My Body"]],
                                  Some "connection lost") |}.

(** A database that answers every query with three rows. *)
Definition threeRowDB : sql.DB :=
  {| sql.Query := fun _ _ => inr ([["1"; "a"; "x"]; ["2"; "b"; "y"];
                                   ["3"; "c"; "z"]], None) |}.

(** The record [{id=1, title="My Title", body="My Body"}] of [main]. *)
Definition fullMessage : TableMap :=
  bound_all [BindInt "id" (FromInt (Some 1%Z));
             BindString "title" (FromString (Some "My Title"));
             BindString "body" (FromString (Some "My Body"))]
    (NewTableMap flakyDB TABLE_NAME).

(** The record [{id=1}] of [main]: title and body are nil. *)
Definition idOnly : TableMap :=
  bound_all [BindInt "id" (FromInt (Some 1%Z));
             BindString "title" (FromString None);
             BindString "body" (FromString None)]
    (NewTableMap flakyDB TABLE_NAME).

Definition idOnlyThree : TableMap :=
  bound_all [BindInt "id" (FromInt (Some 1%Z))]
    (NewTableMap threeRowDB TABLE_NAME).

(** A record with every field nil. *)
Definition emptyMessage : TableMap :=
  bound_all [BindInt "id" (FromInt None);
             BindString "title" (FromString None);
             BindString "body" (FromString None)]
    (NewTableMap flakyDB TABLE_NAME).

(** The name [title] bound twice. *)
Definition boundTwice : TableMap :=
  bound_all [BindString "title" (FromString (Some "old"));
             BindString "title" (FromString (Some "new"))]
    (NewTableMap flakyDB TABLE_NAME).

(** An accessor whose text is an integer but whose value is flagged absent. *)
Definition absentTwelve : sql.NullString :=
  {| sql.String := "12"; sql.Valid := false |}.

(** A callback that records the current row and never fails. *)
Definition recordRow : Parser (list sql.Row) :=
  fun seen => CallScan (fun row => Return None (seen ++ option_list row)).

(** A callback that records the current row and fails on the row whose
    first column is [bad]. *)
Definition failOn (bad : string) : Parser (list sql.Row) :=
  fun seen =>
    CallScan (fun row =>
      let seen' := seen ++ option_list row in
      match row with
      | Some (c :: _) => if String.eqb c bad then Return (Some "bad row") seen'
                         else Return None seen'
      | _ => Return None seen'
      end).

(** A callback that counts its calls and, at each call, advances the
    cursor by one row itself. *)
Definition skipRow : Parser nat :=
  fun calls => CallNext (fun _ => Return None (S calls)).

(** A callback that closes the cursor at its first call. *)
Definition closeEarly : Parser nat :=
  fun calls => CallClose (Return None (S calls)).

(** ** [Create] *)

(** [Create] calls [f.DB.Exec], which the handle of the embedding does not
    carry: the answer of [Exec] (its [sql.Result] and its error) is a
    parameter. *)
Section Create.

Variable Result : Type.
Variable Exec : sql.DB -> string -> list string -> Result * option sql.error.

Definition Create : M (Result * option sql.error) :=
  q <- CreateSql ;;
  let '(sql, vals) := q in
  db <- read DB ;;
  ret (Exec db sql vals).

End Create.

(** The caller's state after one call of the callback on each row of [pre],
    in order, while the rows [suffix] are still to come after them. *)
Fixpoint visit_before {St} (parser : Parser St) (fail : option sql.error)
         (pre suffix : list sql.Row) (s : St) : St :=
  match pre with
  | [] => s
  | r :: rest =>
      visit_before parser fail rest suffix
        (snd (runCallback (parser s) (at_row fail r (rest ++ suffix))))
  end.

(** The line that [Print] writes for a column. *)
Definition print_line (colname : string) (v : sql.NullString) : string :=
  colname +:+ " : " +:+ (if sql.Valid v then sql.String v else "<null>")
  +:+ LF.

(** A string that starts with a decimal digit. *)
Definition starts_with_digit (s : string) : Prop :=
  match s with
  | String c _ => strconv.is_digit c = true
  | EmptyString => False
  end.

(** A nil [*int], or a pointer to a value of the 64-bit [int]. *)
Definition int_ptr (v : option Z) : Prop :=
  match v with
  | Some i => (strconv.minInt <= i <= strconv.maxInt)%Z
  | None => True
  end.

(** The value that a nullable field contributes to an INSERT. *)
Definition or_NULL (v : option string) : string := default "NULL" v.

(** The predicate column that a nullable field contributes to a SELECT. *)
Definition if_set {A} (v : option A) (col : string) : list string :=
  match v with Some _ => [col] | None => [] end.

(** ** [strconv.Atoi] on sample texts *)

Example Atoi_accepts :
  strconv.Atoi "1" = Some 1%Z /\ strconv.Atoi "+12" = Some 12%Z /\
  strconv.Atoi "-7" = Some (-7)%Z /\ strconv.Atoi "007" = Some 7%Z /\
  strconv.Atoi "-9223372036854775808" = Some strconv.minInt.
Proof. repeat split. Qed.

Example Atoi_rejects :
  strconv.Atoi "" = None /\ strconv.Atoi "-" = None /\
  strconv.Atoi "12a" = None /\ strconv.Atoi " 1" = None /\
  strconv.Atoi "1_0" = None /\ strconv.Atoi "My Title" = None /\
  strconv.Atoi "9223372036854775808" = None.
Proof. repeat split. Qed.

Example Itoa_samples :
  strconv.Itoa 0 = "0" /\ strconv.Itoa (-120) = "-120" /\
  strconv.Itoa strconv.maxInt = "9223372036854775807".
Proof. repeat split. Qed.

(** ** Equations of the monad *)

Lemma bind_read {A B} (proj : TableMap -> A) (k : A -> M B) (f : TableMap) :
  (x <- read proj ;; k x) f = k (proj f) f.
Proof. reflexivity. Qed.

Lemma bind_ret {A B} (a : A) (k : A -> M B) (f : TableMap) :
  (x <- ret a ;; k x) f = k a f.
Proof. reflexivity. Qed.

Lemma bind_returns {A B} (c : M A) (k : A -> M B) (f f' : TableMap) (a : A) :
  c f = Some (a, f') -> (x <- c ;; k x) f = k a f'.
Proof. unfold bind. by intros ->. Qed.

Lemma bind_panics {A B} (c : M A) (k : A -> M B) (f : TableMap) :
  c f = None -> (x <- c ;; k x) f = None.
Proof. unfold bind. by intros ->. Qed.

Lemma bind_inv {A B} (c : M A) (k : A -> M B) (f f2 : TableMap) (b : B) :
  (x <- c ;; k x) f = Some (b, f2) ->
  exists a f1, c f = Some (a, f1) /\ k a f1 = Some (b, f2).
Proof.
  unfold bind. destruct (c f) as [[a f1]|]; [|done]. intros H. by exists a, f1.
Qed.

(** ** The loops of [getFieldsHelper] and [FindSql] *)

Section Loops.

Variable f : TableMap.

Lemma fields_loop inclnull (order cols vals : list string) :
  Forall (fun name => is_Some (field_val f name)) order ->
  forRange order
    (fun '(cols, vals) fieldName =>
       fields <- read Fields ;;
       v <- call (Val (index fields fieldName)) ;;
       if negb (sql.Valid v) && negb inclnull then ret (cols, vals)
       else
         let cols := cols ++ [fieldName] in
         if sql.Valid v then ret (cols, vals ++ [sql.String v])
         else ret (cols, vals ++ ["NULL"]))
    (cols, vals) f
  = Some ((cols ++ List.filter (fun name => present f name || inclnull) order,
           vals ++ List.map (value_text f)
                    (List.filter (fun name => present f name || inclnull) order)),
          f).
Proof.
  intros Hret.
  match goal with |- forRange _ ?b _ _ = _ => set (body := b) end.
  revert cols vals.
  induction Hret as [|name order [v Hv] _ IH]; intros cols vals;
    cbn [forRange List.filter List.map].
  - by rewrite !app_nil_r.
  - assert (Hp : present f name = sql.Valid v)
      by (unfold present, value_of; by rewrite Hv).
    assert (Ht : value_text f name
                 = if sql.Valid v then sql.String v else "NULL")
      by (unfold value_text, present, value_of; by rewrite Hv).
    unfold bind at 1. unfold body at 1.
    unfold bind at 1. unfold bind at 1. unfold read at 1. unfold call at 1.
    fold (field_val f name). rewrite Hv, Hp.
    destruct (sql.Valid v), inclnull; cbn [negb andb orb List.map];
      rewrite ?Ht; unfold ret at 1; rewrite IH, <- ?app_assoc; done.
Qed.

Lemma placeholders_loop (cols acc : list string) :
  forRange cols (fun placeholders _ => ret (placeholders ++ ["?"])) acc f
  = Some (acc ++ replicate (List.length cols) "?", f).
Proof.
  revert acc. induction cols as [|c cols IH]; intros acc; simpl.
  - by rewrite app_nil_r.
  - unfold bind, ret at 1. rewrite IH. by rewrite <- app_assoc.
Qed.

Lemma where_loop (cols placeholders acc : list string) (k : nat) :
  (forall i, i < List.length cols -> placeholders !! (k + i) = Some "?") ->
  forRange (imap (fun i col => (k + i, col)) cols)
    (fun where_ '(i, col) =>
       p <- at_index placeholders i ;;
       let cond := col +:+ "=" +:+ p in
       ret (where_ ++ [cond]))
    acc f
  = Some (acc ++ List.map equality cols, f).
Proof.
  revert acc k. induction cols as [|c cols IH]; intros acc k Hph; simpl.
  - by rewrite app_nil_r.
  - unfold bind at 1. unfold bind at 1. unfold at_index at 1.
    rewrite (Hph 0) by (simpl; lia). unfold ret at 1.
    rewrite (imap_ext _ (fun i col => (S k + i, col))).
    + rewrite IH.
      * by rewrite <- app_assoc.
      * intros i Hi. replace (S k + i) with (k + S i) by lia.
        apply Hph. simpl. lia.
    + intros i x _. simpl. f_equal. lia.
Qed.

End Loops.

(** ** What the statement builder returns *)

Lemma kept_all (f : TableMap) : kept true f = fieldOrder f.
Proof.
  unfold kept. induction (fieldOrder f) as [|name order IH]; simpl; [done|].
  rewrite orb_true_r. by f_equal.
Qed.

Lemma kept_present (inclnull : bool) (f : TableMap) (name : string) :
  In name (kept inclnull f) <->
  In name (fieldOrder f) /\ (present f name = true \/ inclnull = true).
Proof.
  unfold kept. rewrite filter_In, orb_true_iff. tauto.
Qed.

Lemma value_text_present (f : TableMap) (name : string) :
  present f name = true -> value_text f name = sql.String (value_of f name).
Proof. unfold value_text. by intros ->. Qed.

Lemma value_text_absent (f : TableMap) (name : string) :
  present f name = false -> value_text f name = "NULL".
Proof. unfold value_text. by intros ->. Qed.

Lemma getFieldsHelper_returns (inclnull : bool) (f : TableMap) :
  accessors_return f ->
  getFieldsHelper inclnull f
  = Some ((kept inclnull f,
           replicate (List.length (kept inclnull f)) "?",
           List.map (value_text f) (kept inclnull f)), f).
Proof.
  intros Hret. unfold getFieldsHelper. rewrite bind_read.
  rewrite (bind_returns _ _ _ _ _ (fields_loop f inclnull _ [] [] Hret)).
  cbn [app]. fold (kept inclnull f).
  by rewrite (bind_returns _ _ _ _ _ (placeholders_loop f _ [])).
Qed.

(** A column of the order whose accessor is nil, missing from the map, or
    panics makes [getFieldsHelper] panic. *)
Lemma getFieldsHelper_panics (inclnull : bool) (f : TableMap) :
  ~ accessors_return f -> getFieldsHelper inclnull f = None.
Proof.
  intros Hnot. unfold getFieldsHelper. rewrite bind_read.
  apply bind_panics.
  match goal with |- forRange _ ?b ?a f = None => set (body := b); generalize a end.
  unfold accessors_return in Hnot.
  induction (fieldOrder f) as [|name order IH]; intros acc.
  - destruct Hnot. constructor.
  - cbn [forRange]. destruct acc as [cols vals].
    destruct (field_val f name) as [v|] eqn:Hv.
    + assert (Hrest : ~ Forall (fun name => is_Some (field_val f name)) order).
      { intros Hall. apply Hnot. constructor; [by eexists|done]. }
      assert (Hcall : call (Val (index (Fields f) name)) f = Some (v, f)).
      { unfold call. fold (field_val f name). by rewrite Hv. }
      assert (Hstep : exists acc', body (cols, vals) name f = Some (acc', f)).
      { unfold body. rewrite bind_read, (bind_returns _ _ _ _ _ Hcall).
        destruct (negb (sql.Valid v) && negb inclnull), (sql.Valid v);
          eexists; reflexivity. }
      destruct Hstep as [acc' Hstep].
      rewrite (bind_returns _ _ _ _ _ Hstep). apply (IH Hrest).
    + apply bind_panics. unfold body. rewrite bind_read. apply bind_panics.
      unfold call. fold (field_val f name). by rewrite Hv.
Qed.

Lemma CreateSql_returns (f : TableMap) :
  accessors_return f ->
  CreateSql f
  = Some ((insert_text (TableName f) (fieldOrder f)
             (replicate (List.length (fieldOrder f)) "?"),
           List.map (value_text f) (fieldOrder f)), f).
Proof.
  intros Hret. unfold CreateSql, GetFields.
  rewrite (bind_returns _ _ _ _ _ (getFieldsHelper_returns true f Hret)).
  by rewrite kept_all.
Qed.

Lemma FindSql_returns (f : TableMap) :
  accessors_return f ->
  FindSql f
  = Some ((select_text (TableName f) (fieldOrder f)
             (List.map equality (present_cols f)),
           List.map (value_text f) (present_cols f)), f).
Proof.
  intros Hret. unfold FindSql, GetFields, GetFieldsWithoutNulls.
  rewrite (bind_returns _ _ _ _ _ (getFieldsHelper_returns true f Hret)).
  rewrite (bind_returns _ _ _ _ _ (getFieldsHelper_returns false f Hret)).
  rewrite kept_all. fold (present_cols f).
  assert (Hph : forall i, i < List.length (present_cols f) ->
            replicate (List.length (present_cols f)) "?" !! (0 + i) = Some "?")
    by (intros i Hi; by apply lookup_replicate_2).
  by rewrite (bind_returns _ _ _ _ _ (where_loop f _ _ [] 0 Hph)).
Qed.

(** ** What the column binders do *)

Lemma StringCol_returns (name : string) (input : TableMapInput) (f : TableMap) :
  StringCol name input f = Some (tt, bound f name input).
Proof. reflexivity. Qed.

Lemma IntCol_returns (name : string) (input : TableMapInput) (f : TableMap) :
  IntCol name input f = Some (tt, bound f name (inputChecked input)).
Proof. reflexivity. Qed.

Lemma do_bind_returns (b : BindCall) (f : TableMap) :
  do_bind b f = Some (tt, bound f (bind_name b) (stored_input b)).
Proof. by destruct b. Qed.

Lemma field_val_bound (f : TableMap) (name n : string) (input : TableMapInput) :
  field_val (bound f name input) n
  = if decide (name = n) then input tt else field_val f n.
Proof.
  unfold field_val, index, bound; simpl. rewrite lookup_insert.
  by case_decide.
Qed.

Lemma inputChecked_returns (input : TableMapInput) :
  is_Some (input tt) -> is_Some (inputChecked input tt).
Proof.
  intros [v Hv]. unfold inputChecked. rewrite Hv.
  destruct (strconv.Atoi (sql.String v)), (sql.Valid v); by eexists.
Qed.

Lemma stored_input_returns (b : BindCall) :
  is_Some (bind_input b tt) -> is_Some (stored_input b tt).
Proof. destruct b; simpl; [done|apply inputChecked_returns]. Qed.

Lemma bindAll_cons (b : BindCall) (bs : list BindCall) (f : TableMap) :
  bindAll (b :: bs) f = bindAll bs (bound f (bind_name b) (stored_input b)).
Proof.
  unfold bindAll. cbn [forRange].
  by rewrite (bind_returns _ _ _ _ _ (do_bind_returns b f)).
Qed.

Lemma bindAll_returns (bs : list BindCall) (f : TableMap) :
  bindAll bs f = Some (tt, bound_all bs f).
Proof.
  revert f. induction bs as [|b bs IH]; intros f; [done|].
  by rewrite bindAll_cons, IH.
Qed.

Lemma bound_all_TableName (bs : list BindCall) (f : TableMap) :
  TableName (bound_all bs f) = TableName f.
Proof.
  revert f. induction bs as [|b bs IH]; intros f; [done|].
  simpl. by rewrite IH.
Qed.

Lemma bound_all_fieldOrder (bs : list BindCall) (f : TableMap) :
  fieldOrder (bound_all bs f) = fieldOrder f ++ List.map bind_name bs.
Proof.
  revert f. induction bs as [|b bs IH]; intros f; simpl.
  - by rewrite app_nil_r.
  - rewrite IH. simpl. by rewrite <- app_assoc.
Qed.

Lemma bound_all_other (bs : list BindCall) (f : TableMap) (n : string) :
  ~ In n (List.map bind_name bs) ->
  field_val (bound_all bs f) n = field_val f n.
Proof.
  revert f. induction bs as [|b bs IH]; intros f Hn; [done|].
  simpl in *. rewrite IH by tauto. rewrite field_val_bound.
  case_decide; [|done]. destruct Hn. by left.
Qed.

(** With distinct names every column reads the accessor of its own bind. *)
Lemma bound_all_own (bs : list BindCall) (f : TableMap) (b : BindCall) :
  List.NoDup (List.map bind_name bs) -> In b bs ->
  field_val (bound_all bs f) (bind_name b) = stored_input b tt.
Proof.
  revert f. induction bs as [|b0 bs IH]; intros f Hnd Hin; [done|].
  simpl in *. apply List.NoDup_cons_iff in Hnd as [Hfresh Hnd].
  destruct Hin as [->|Hin].
  - rewrite bound_all_other by done. rewrite field_val_bound.
    by case_decide.
  - by apply IH.
Qed.

(** The last bind of a name decides the accessor of that column. *)
Lemma bound_all_last (bs : list BindCall) (b : BindCall) (f : TableMap) :
  field_val (bound_all (bs ++ [b]) f) (bind_name b) = stored_input b tt.
Proof.
  unfold bound_all. rewrite fold_left_app. simpl.
  rewrite field_val_bound. by case_decide.
Qed.

Lemma bound_all_accessors_return (bs : list BindCall) (f : TableMap) :
  accessors_return f ->
  Forall (fun b => is_Some (bind_input b tt)) bs ->
  accessors_return (bound_all bs f).
Proof.
  intros Hf Hbs. revert f Hf.
  induction Hbs as [|b bs Hb _ IH]; intros f Hf; [done|].
  simpl. apply IH. unfold accessors_return in *. simpl.
  apply Forall_app. split.
  - eapply Forall_impl; [exact Hf|]. intros n Hn. simpl.
    rewrite field_val_bound. case_decide; [|done].
    by apply stored_input_returns.
  - constructor; [|constructor]. rewrite field_val_bound.
    case_decide; [|done]. by apply stored_input_returns.
Qed.

Lemma NewTableMap_accessors_return (db : sql.DB) (tableName : string) :
  accessors_return (NewTableMap db tableName).
Proof. constructor. Qed.

(** ** Computations that leave the receiver as it was *)

Lemma preserves_ret {A} (a : A) : preserves (ret a).
Proof. intros f a' f' H. by inversion H. Qed.

Lemma preserves_read {A} (proj : TableMap -> A) : preserves (read proj).
Proof. intros f a' f' H. by inversion H. Qed.

Lemma preserves_bind {A B} (c : M A) (k : A -> M B) :
  preserves c -> (forall a, preserves (k a)) -> preserves (x <- c ;; k x).
Proof.
  intros Hc Hk f b f2 H.
  apply bind_inv in H as (a & f1 & H1 & H2).
  apply Hc in H1 as ->. by apply Hk in H2.
Qed.

Lemma preserves_forRange {A B} (l : list B) (body : A -> B -> M A) (acc : A) :
  (forall acc x, preserves (body acc x)) -> preserves (forRange l body acc).
Proof.
  intros Hbody. revert acc.
  induction l as [|x l IH]; intros acc; cbn [forRange].
  - apply preserves_ret.
  - apply preserves_bind; [apply Hbody|apply IH].
Qed.

Lemma preserves_call (input : TableMapInput) : preserves (call input).
Proof.
  intros f v f' H. unfold call in H. destruct (input tt); by inversion H.
Qed.

Lemma preserves_at_index (l : list string) (i : nat) : preserves (at_index l i).
Proof.
  intros f v f' H. unfold at_index in H. destruct (l !! i); by inversion H.
Qed.

Create HintDb frame.
#[global] Hint Resolve preserves_ret preserves_read preserves_call
  preserves_at_index : frame.

(** Splits a computation along its binds, loops, branches and tuple
    patterns until only primitive reads and calls are left. *)
Ltac frame :=
  repeat match goal with
    | |- preserves (bind _ _) => apply preserves_bind
    | |- preserves (forRange _ _ _) => apply preserves_forRange
    | |- preserves (if ?b then _ else _) => destruct b
    | |- preserves (match ?p with (_, _) => _ end) => destruct p
    | |- preserves ((match ?p with (_, _) => _ end) _) =>
        destruct p; cbv beta iota
    | |- preserves _ => solve [auto with frame]
    | |- forall _, _ => intro; cbv beta
    end.

Lemma preserves_getFieldsHelper (inclnull : bool) :
  preserves (getFieldsHelper inclnull).
Proof. unfold getFieldsHelper. frame. Qed.

#[global] Hint Resolve preserves_getFieldsHelper : frame.

Lemma preserves_Print : preserves Print.
Proof. unfold Print. frame. Qed.

Lemma preserves_CreateSql : preserves CreateSql.
Proof. unfold CreateSql, GetFields. frame. Qed.

Lemma preserves_FindSql : preserves FindSql.
Proof. unfold FindSql, GetFields, GetFieldsWithoutNulls. frame. Qed.

Lemma preserves_Find {St} (parser : Parser St) (s : St) : preserves (Find parser s).
Proof.
  unfold Find. apply preserves_bind; [apply preserves_FindSql|].
  intros [sql vals]. apply preserves_bind; [apply preserves_read|].
  intros db. destruct (sql.Query db sql vals) as [err|[delivered fail]].
  - apply preserves_ret.
  - intros f r f' H.
    destruct (forNext _ parser _ s) as [[[err rows'] s']|]; by inversion H.
Qed.

(** ** The row loop of [Find] *)

(** [Next] never gives the cursor more rows, and takes one when it
    succeeds. *)
Lemma Next_avail (rows : sql.Rows) :
  List.length (sql.avail (snd (sql.Next rows)))
  <= List.length (sql.avail rows) /\
  (fst (sql.Next rows) = true ->
   List.length (sql.avail (snd (sql.Next rows)))
   < List.length (sql.avail rows)).
Proof.
  unfold sql.Next. destruct (sql.closed rows); [by split|].
  destruct (sql.avail rows) as [|r rest]; simpl; split; (done || lia).
Qed.

(** Whatever a callback does with the cursor, it leaves no more rows in it
    than it found. *)
Lemma runCallback_avail {St} (c : Callback St) (rows : sql.Rows) :
  List.length (sql.avail (snd (fst (runCallback c rows))))
  <= List.length (sql.avail rows).
Proof.
  revert rows. induction c as [err s|k IH|k IH|k IH|k IH]; intros rows;
    cbn [runCallback].
  - done.
  - apply IH.
  - pose proof (Next_avail rows) as [Hle _].
    destruct (sql.Next rows) as [ok rows1]. simpl in Hle.
    etrans; [apply IH|done].
  - apply IH.
  - exact (IH (sql.Close rows)).
Qed.

Section RowLoop.

Context {St : Type} (parser : Parser St).

(** Enough fuel: whatever the callback does with the cursor, the loop ends
    within one test more than the rows left. *)
Lemma forNext_returns (fuel : nat) (rows : sql.Rows) (s : St) :
  List.length (sql.avail rows) < fuel ->
  is_Some (forNext fuel parser rows s).
Proof.
  revert rows s. induction fuel as [|fuel IH]; intros rows s Hlen; [lia|].
  cbn [forNext]. pose proof (Next_avail rows) as [_ Hlt].
  destruct (sql.Next rows) as [[|] rows1]; [|by eexists].
  simpl in Hlt. specialize (Hlt eq_refl).
  pose proof (runCallback_avail (parser s) rows1) as Hle.
  destruct (runCallback (parser s) rows1) as [[[e|] rows2] s1];
    [by eexists|].
  apply IH. simpl in Hle. lia.
Qed.

(** The loop hands on an error only if a call of the callback returned
    it. *)
Lemma forNext_error (fuel : nat) (rows rows' : sql.Rows) (s s' : St)
      (e : sql.error) :
  forNext fuel parser rows s = Some (Some e, rows', s') ->
  exists rows1 s1, runCallback (parser s1) rows1 = (Some e, rows', s').
Proof.
  revert rows s. induction fuel as [|fuel IH]; intros rows s H; [done|].
  cbn [forNext] in H. destruct (sql.Next rows) as [[|] rows1]; [|done].
  destruct (runCallback (parser s) rows1) as [[[e1|] rows2] s1] eqn:Hp.
  - inversion H; subst. by exists rows1, s.
  - by apply IH in H.
Qed.

(** A callback that never fails: the loop returns nil, whatever stopped
    the iteration. *)
Lemma forNext_nil (fuel : nat) (rows rows' : sql.Rows) (s s' : St)
      (err : option sql.error) :
  never_fails parser ->
  forNext fuel parser rows s = Some (err, rows', s') -> err = None.
Proof.
  intros Hok. destruct err as [e|]; [|done]. intros H.
  apply forNext_error in H as (rows1 & s1 & Hp).
  specialize (Hok s1 rows1). by rewrite Hp in Hok.
Qed.

(** A callback that never fails and leaves the cursor alone is called once
    on every row, in cursor order, and the loop returns nil. *)
Lemma forNext_visits (fuel : nat) (fail : option sql.error)
      (cur : option sql.Row) (rows : list sql.Row) (s : St) :
  never_fails parser -> reads_only parser ->
  List.length rows < fuel ->
  exists rows',
    forNext fuel parser
      {| sql.avail := rows; sql.failure := fail; sql.current := cur;
         sql.lasterr := None; sql.closed := false |} s
    = Some (None, rows', visit parser fail rows s) /\
    sql.avail rows' = [] /\ sql.closed rows' = true /\
    sql.lasterr rows' = fail.
Proof.
  intros Hok Hro. revert cur rows s.
  induction fuel as [|fuel IH]; intros cur rows s Hlen; [lia|].
  cbn [forNext]. unfold sql.Next. cbn [sql.closed sql.avail].
  destruct rows as [|r rest]; [by eexists|].
  cbn [sql.failure sql.lasterr visit]. fold (at_row fail r rest).
  specialize (Hok s (at_row fail r rest)).
  specialize (Hro s (at_row fail r rest)).
  destruct (runCallback (parser s) (at_row fail r rest)) as [[err rows2] s1].
  simpl in Hok, Hro. subst err rows2. apply IH. simpl in Hlen. lia.
Qed.

End RowLoop.

Ltac returns :=
  apply bound_all_accessors_return;
  [ apply NewTableMap_accessors_return
  | repeat constructor; eexists; reflexivity ].

Lemma fullMessage_returns : accessors_return fullMessage.
Proof. returns. Qed.

Lemma idOnly_returns : accessors_return idOnly.
Proof. returns. Qed.

Lemma emptyMessage_returns : accessors_return emptyMessage.
Proof. returns. Qed.

(** The example program's statements. *)
Example fullMessage_CreateSql :
  fst <$> CreateSql fullMessage
  = Some ("INSERT INTO messages (id,title,body) VALUES (?,?,?)" +:+ LF,
          ["1"; "My Title"; "My Body"]).
Proof. reflexivity. Qed.

Example idOnly_FindSql :
  fst <$> FindSql idOnly
  = Some ("SELECT id,title,body FROM messages WHERE id=?", ["1"]).
Proof. reflexivity. Qed.

Example idOnly_CreateSql :
  fst <$> CreateSql idOnly
  = Some ("INSERT INTO messages (id,title,body) VALUES (?,?,?)" +:+ LF,
          ["1"; "NULL"; "NULL"]).
Proof. reflexivity. Qed.

Example toTableMap_fullMessage :
  toTableMap {| ID := Some 1%Z; Title := Some "My Title";
                Body := Some "My Body" |} flakyDB
  = Some fullMessage.
Proof. reflexivity. Qed.

(** A name in the order that the map does not hold: the nil accessor of the
    zero field is called and [GetFields] panics. *)
Example GetFields_unbound_name :
  GetFields {| DB := flakyDB; TableName := TABLE_NAME; Fields := ∅;
               fieldOrder := ["id"] |} = None.
Proof. reflexivity. Qed.

(** ** The statement builder *)

Lemma present_returns (f : TableMap) (name : string) :
  present f name = true -> is_Some (field_val f name).
Proof.
  unfold present, value_of. destruct (field_val f name); [by eexists|done].
Qed.

Lemma present_field_val (f : TableMap) (name : string) :
  present f name = true ->
  field_val f name
  = Some {| sql.String := sql.String (value_of f name); sql.Valid := true |}.
Proof.
  unfold present, value_of.
  destruct (field_val f name) as [[s b]|]; simpl; [|done]. by intros ->.
Qed.

Lemma present_cols_filter (f : TableMap) :
  present_cols f = List.filter (present f) (fieldOrder f).
Proof.
  unfold present_cols, kept. apply List.filter_ext.
  intros name. apply orb_false_r.
Qed.

Lemma present_cols_none (f : TableMap) :
  Forall (fun name => present f name = false) (fieldOrder f) ->
  present_cols f = [].
Proof.
  rewrite present_cols_filter.
  induction 1 as [|name order Hname _ IH]; simpl; [done|]. by rewrite Hname.
Qed.

(** C1.  For the record of the example program with its three columns
    present, [FindSql] separates the equality predicates of the WHERE
    clause by commas: the text is
    [SELECT id,title,body FROM messages WHERE id=?,title=?,body=?] and not
    the conjunction [... WHERE id=? AND title=? AND body=?].  The select
    list and the value list are as the claim says. *)
Theorem FindSql_separates_predicates_by_comma :
  fst <$> FindSql fullMessage
  = Some ("SELECT id,title,body FROM messages WHERE id=?,title=?,body=?",
          ["1"; "My Title"; "My Body"])
  /\ fst <$> FindSql fullMessage
     <> Some ("SELECT id,title,body FROM messages "
              +:+ "WHERE id=? AND title=? AND body=?",
              ["1"; "My Title"; "My Body"]).
Proof. split; [reflexivity|discriminate]. Qed.

(** C2.  For a binding set whose accessors return, [CreateSql] returns the
    text [INSERT INTO <table> (<cols>) VALUES (<placeholders>)], ended by a
    line feed, whose column list is every bound column in order and whose
    placeholder list has one [?] per column, together with a value list
    that holds, position by position, the text ["NULL"] for a column whose
    value is absent and the string of the value for a column whose value
    is present. *)
Theorem CreateSql_renders_insert (f : TableMap) :
  accessors_return f ->
  exists vals,
    CreateSql f
    = Some (("INSERT INTO " +:+ TableName f +:+ " ("
             +:+ Join (fieldOrder f) "," +:+ ") VALUES ("
             +:+ Join (replicate (List.length (fieldOrder f)) "?") ","
             +:+ ")" +:+ LF, vals), f)
    /\ Forall2 (fun name val =>
                  (present f name = false -> val = "NULL") /\
                  (present f name = true ->
                   val = sql.String (value_of f name)))
         (fieldOrder f) vals.
Proof.
  intros Hret. exists (List.map (value_text f) (fieldOrder f)). split.
  - by rewrite (CreateSql_returns f Hret).
  - apply Forall2_fmap_r, Forall_Forall2_diag, Forall_forall.
    intros name _. split.
    + apply value_text_absent.
    + apply value_text_present.
Qed.

Lemma CreateSql_renders_insert_witness :
  accessors_return idOnly /\
  exists vals,
    CreateSql idOnly
    = Some (("INSERT INTO " +:+ TableName idOnly +:+ " ("
             +:+ Join (fieldOrder idOnly) "," +:+ ") VALUES ("
             +:+ Join (replicate (List.length (fieldOrder idOnly)) "?") ","
             +:+ ")" +:+ LF, vals), idOnly)
    /\ Forall2 (fun name val =>
                  (present idOnly name = false -> val = "NULL") /\
                  (present idOnly name = true ->
                   val = sql.String (value_of idOnly name)))
         (fieldOrder idOnly) vals.
Proof.
  split; [exact idOnly_returns|].
  apply (CreateSql_renders_insert idOnly). exact idOnly_returns.
Defined.

(** C5.  For a binding set whose accessors return and in which no column
    has a present value, [FindSql] returns (it reports no error) a statement
    that ends in [WHERE ] with no predicate after it, and an empty value
    list. *)
Theorem FindSql_without_present_columns (f : TableMap) :
  accessors_return f ->
  Forall (fun name => present f name = false) (fieldOrder f) ->
  FindSql f
  = Some (("SELECT " +:+ Join (fieldOrder f) "," +:+ " FROM "
           +:+ TableName f +:+ " WHERE ", []), f).
Proof.
  intros Hret Hnone. rewrite (FindSql_returns f Hret).
  by rewrite (present_cols_none f Hnone).
Qed.

Lemma FindSql_without_present_columns_witness :
  FindSql emptyMessage
  = Some (("SELECT id,title,body FROM messages WHERE ", []), emptyMessage).
Proof.
  apply (FindSql_without_present_columns emptyMessage).
  - exact emptyMessage_returns.
  - repeat constructor.
Defined.

(** C8.  For a binding set in which every column has a present value,
    [GetFields] returns a column list, a placeholder list and a value list
    of one and the same length, and [CreateSql] renders its statement from
    exactly these lists. *)
Theorem CreateSql_lists_have_equal_length (f : TableMap) :
  Forall (fun name => present f name = true) (fieldOrder f) ->
  exists cols placeholders vals,
    GetFields f = Some ((cols, placeholders, vals), f) /\
    CreateSql f
    = Some ((insert_text (TableName f) cols placeholders, vals), f) /\
    List.length cols = List.length placeholders /\
    List.length vals = List.length cols /\
    List.length cols = List.length (fieldOrder f).
Proof.
  intros Hall.
  assert (Hret : accessors_return f).
  { eapply Forall_impl; [exact Hall|]. apply present_returns. }
  exists (fieldOrder f), (replicate (List.length (fieldOrder f)) "?"),
         (List.map (value_text f) (fieldOrder f)).
  split; [|split; [|split; [|split]]].
  - unfold GetFields. rewrite (getFieldsHelper_returns true f Hret).
    by rewrite kept_all.
  - apply (CreateSql_returns f Hret).
  - by rewrite length_replicate.
  - apply List.length_map.
  - done.
Qed.

Lemma CreateSql_lists_have_equal_length_witness :
  exists cols placeholders vals,
    GetFields fullMessage = Some ((cols, placeholders, vals), fullMessage) /\
    CreateSql fullMessage
    = Some ((insert_text (TableName fullMessage) cols placeholders, vals),
            fullMessage) /\
    List.length cols = List.length placeholders /\
    List.length vals = List.length cols /\
    List.length cols = List.length (fieldOrder fullMessage).
Proof.
  apply (CreateSql_lists_have_equal_length fullMessage).
  repeat constructor.
Defined.

(** C10.  For a binding set whose accessors return, [GetFieldsWithoutNulls]
    returns three lists of equal length; every placeholder is [?]; and
    every value is the string of the present value of the column at the
    same position, so that the text ["NULL"] is never put in for an absent
    one. *)
Theorem GetFieldsWithoutNulls_only_present (f : TableMap) :
  accessors_return f ->
  exists cols placeholders vals,
    GetFieldsWithoutNulls f = Some ((cols, placeholders, vals), f) /\
    List.length placeholders = List.length cols /\
    List.length vals = List.length cols /\
    Forall (fun p => p = "?") placeholders /\
    Forall2 (fun col val =>
               In col (fieldOrder f) /\
               field_val f col
               = Some {| sql.String := val; sql.Valid := true |})
      cols vals.
Proof.
  intros Hret.
  exists (kept false f), (replicate (List.length (kept false f)) "?"),
         (List.map (value_text f) (kept false f)).
  split; [|split; [|split; [|split]]].
  - apply (getFieldsHelper_returns false f Hret).
  - apply length_replicate.
  - apply List.length_map.
  - apply Forall_forall. intros p Hp. by apply elem_of_replicate in Hp as [-> _].
  - apply Forall2_fmap_r, Forall_Forall2_diag, Forall_forall.
    intros name Hname. apply list_elem_of_In, kept_present in Hname.
    destruct Hname as [Hin [Hp|?]]; [|done]. split; [done|].
    rewrite (value_text_present f name Hp). by apply present_field_val.
Qed.

Lemma GetFieldsWithoutNulls_only_present_witness :
  exists cols placeholders vals,
    GetFieldsWithoutNulls idOnly = Some ((cols, placeholders, vals), idOnly) /\
    List.length placeholders = List.length cols /\
    List.length vals = List.length cols /\
    Forall (fun p => p = "?") placeholders /\
    Forall2 (fun col val =>
               In col (fieldOrder idOnly) /\
               field_val idOnly col
               = Some {| sql.String := val; sql.Valid := true |})
      cols vals.
Proof.
  apply (GetFieldsWithoutNulls_only_present idOnly). exact idOnly_returns.
Defined.

(** ** Column order and repeated names *)

(** C7.  For bind calls with distinct names whose accessors return, run
    against a fresh binding set: the column order is the order of the bind
    calls, every column reads the accessor of its own bind call, and both
    [CreateSql] and [FindSql] list the columns in that order ([FindSql] in
    its select list, and in its WHERE clause the present ones among them,
    still in that order). *)
Theorem columns_follow_bind_order
        (db : sql.DB) (tableName : string) (bs : list BindCall) :
  List.NoDup (List.map bind_name bs) ->
  Forall (fun b => is_Some (bind_input b tt)) bs ->
  exists f,
    bindAll bs (NewTableMap db tableName) = Some (tt, f) /\
    fieldOrder f = List.map bind_name bs /\
    (forall b, In b bs -> field_val f (bind_name b) = stored_input b tt) /\
    (exists vals,
        CreateSql f
        = Some (("INSERT INTO " +:+ tableName +:+ " ("
                 +:+ Join (List.map bind_name bs) "," +:+ ") VALUES ("
                 +:+ Join (replicate (List.length bs) "?") ","
                 +:+ ")" +:+ LF, vals), f)) /\
    (exists vals,
        FindSql f
        = Some (("SELECT " +:+ Join (List.map bind_name bs) ","
                 +:+ " FROM " +:+ tableName +:+ " WHERE "
                 +:+ Join (List.map equality
                             (List.filter (present f)
                                (List.map bind_name bs))) ",", vals), f)).
Proof.
  intros Hnd Hbs. exists (bound_all bs (NewTableMap db tableName)).
  set (f := bound_all bs (NewTableMap db tableName)).
  assert (Hret : accessors_return f)
    by (apply bound_all_accessors_return;
        [apply NewTableMap_accessors_return|done]).
  assert (Horder : fieldOrder f = List.map bind_name bs)
    by (unfold f; by rewrite bound_all_fieldOrder).
  assert (Hname : TableName f = tableName)
    by (unfold f; by rewrite bound_all_TableName).
  split; [apply bindAll_returns|]. split; [done|]. split; [|split].
  - intros b Hb. by apply bound_all_own.
  - eexists. rewrite (CreateSql_returns f Hret).
    unfold insert_text. by rewrite Horder, Hname, List.length_map.
  - eexists. rewrite (FindSql_returns f Hret).
    unfold select_text. by rewrite present_cols_filter, Horder, Hname.
Qed.

Lemma columns_follow_bind_order_witness :
  exists f,
    bindAll [BindInt "id" (FromInt (Some 1%Z));
             BindString "title" (FromString None);
             BindString "body" (FromString (Some "text"))]
      (NewTableMap flakyDB TABLE_NAME) = Some (tt, f) /\
    fst <$> CreateSql f
    = Some ("INSERT INTO messages (id,title,body) VALUES (?,?,?)" +:+ LF,
            ["1"; "NULL"; "text"]) /\
    fst <$> FindSql f
    = Some ("SELECT id,title,body FROM messages WHERE id=?,body=?",
            ["1"; "text"]).
Proof.
  destruct (columns_follow_bind_order flakyDB TABLE_NAME
              [BindInt "id" (FromInt (Some 1%Z));
               BindString "title" (FromString None);
               BindString "body" (FromString (Some "text"))])
    as (f & Hf & _).
  - repeat constructor; simpl; intuition discriminate.
  - repeat constructor; eexists; reflexivity.
  - exists f. split; [exact Hf|].
    rewrite bindAll_returns in Hf. inversion Hf. split; reflexivity.
Defined.

(** C6.  Binding the name [title] twice leaves one entry in the field map,
    with the later accessor, but two entries in the column order: [Print],
    which walks the map, shows the column once, while [CreateSql] and
    [FindSql], which walk the order, render it twice (both times with the
    value of the later accessor). *)
Theorem rebound_name_is_rendered_twice :
  fieldOrder boundTwice = ["title"; "title"] /\
  fst <$> Print boundTwice = Some ["title : new" +:+ LF] /\
  fst <$> CreateSql boundTwice
  = Some ("INSERT INTO messages (title,title) VALUES (?,?)" +:+ LF,
          ["new"; "new"]) /\
  fst <$> FindSql boundTwice
  = Some ("SELECT title,title FROM messages WHERE title=?,title=?",
          ["new"; "new"]).
Proof. repeat split. Qed.

(** ** The integer binder *)

(** C4 as stated fails: for an accessor that returns the text [12] flagged
    absent, the binder that [IntCol] registers yields the absent value with
    empty text, although [12] parses as an integer; the value is neither
    "absent only if parsing fails" nor passed through with the same
    string. *)
Lemma IntCol_absent_integer_text :
  exists f,
    IntCol "id" (fun _ => Some absentTwelve)
      (NewTableMap flakyDB TABLE_NAME) = Some (tt, f) /\
    field_val f "id" = Some null /\
    strconv.Atoi (sql.String absentTwelve) = Some 12%Z /\
    ~ (sql.Valid null = false <->
       strconv.Atoi (sql.String absentTwelve) = None) /\
    null <> absentTwelve.
Proof.
  eexists. split; [reflexivity|]. split; [reflexivity|].
  split; [reflexivity|]. split.
  - intros [H _]. by specialize (H eq_refl).
  - discriminate.
Qed.

(** C4, amended.  For an accessor that returns [v], the binder that
    [IntCol] registers under [name] returns a value [r] that is absent if,
    and only if, [v] is absent or the text of [v] fails integer parsing;
    when [v] is present and its text parses, [r] is [v] unchanged; and an
    absent [r] is always the empty text flagged absent. *)
Theorem IntCol_absent_iff
        (f : TableMap) (name : string) (input : TableMapInput)
        (v : sql.NullString) :
  input tt = Some v ->
  exists f' r,
    IntCol name input f = Some (tt, f') /\
    field_val f' name = Some r /\
    (sql.Valid r = false <->
     sql.Valid v = false \/ strconv.Atoi (sql.String v) = None) /\
    (sql.Valid v = true -> strconv.Atoi (sql.String v) <> None -> r = v) /\
    (sql.Valid r = false -> r = null).
Proof.
  intros Hv. eexists. 
  exists (match strconv.Atoi (sql.String v) with
          | None => null
          | Some _ => if sql.Valid v then v else null
          end).
  split; [apply IntCol_returns|]. split.
  - rewrite field_val_bound. case_decide; [|done].
    unfold inputChecked. rewrite Hv.
    by destruct (strconv.Atoi (sql.String v)), (sql.Valid v).
  - destruct (strconv.Atoi (sql.String v)) as [n|], (sql.Valid v) eqn:Hvalid;
      simpl; rewrite ?Hvalid; intuition congruence.
Qed.

Lemma IntCol_absent_iff_witness :
  exists f' r,
    IntCol "id" (FromInt (Some 1%Z)) (NewTableMap flakyDB TABLE_NAME)
    = Some (tt, f') /\
    field_val f' "id" = Some r /\
    (sql.Valid r = false <-> true = false \/ strconv.Atoi "1" = None) /\
    (true = true -> strconv.Atoi "1" <> None ->
     r = {| sql.String := "1"; sql.Valid := true |}) /\
    (sql.Valid r = false -> r = null).
Proof.
  apply (IntCol_absent_iff (NewTableMap flakyDB TABLE_NAME) "id"
           (FromInt (Some 1%Z)) {| sql.String := "1"; sql.Valid := true |}).
  reflexivity.
Defined.

(** ** [Find] *)

(** [Find] returns whenever the accessors do: the row loop ends. *)
Lemma Find_returns {St} (parser : Parser St) (s : St) (f : TableMap) :
  accessors_return f -> exists res, Find parser s f = Some (res, f).
Proof.
  intros Hret. unfold Find.
  rewrite (bind_returns _ _ _ _ _ (FindSql_returns f Hret)), bind_read.
  destruct (sql.Query _ _ _) as [err|[delivered fail]]; [by eexists|].
  destruct (forNext_returns parser (S (List.length delivered))
              (sql.open delivered fail) s) as [[[err rows'] s'] ->].
  - simpl. lia.
  - by eexists.
Qed.

(** Every cursor that [Find] opened is closed when [Find] returns. *)
Lemma Find_closes_cursor {St} (parser : Parser St) (s : St) (f f' : TableMap)
      (res : FindResult St) (rows : sql.Rows) :
  Find parser s f = Some (res, f') -> cursor res = Some rows ->
  sql.closed rows = true.
Proof.
  unfold Find. intros H Hrows.
  apply bind_inv in H as ([sql vals] & f1 & _ & H).
  rewrite bind_read in H.
  destruct (sql.Query _ _ _) as [err|[delivered fail]].
  - inversion H; subst. done.
  - destruct (forNext _ parser _ s) as [[[err rows'] s']|]; [|done].
    inversion H; subst. simpl in Hrows. by inversion Hrows.
Qed.

(** With a callback that never fails, [Find] returns nil whenever [Query]
    opened a cursor, whether the rows ended or the iteration failed. *)
Lemma Find_nil_without_callback_error {St} (parser : Parser St) (s : St)
      (f f' : TableMap) (res : FindResult St) (rows : sql.Rows) :
  never_fails parser ->
  Find parser s f = Some (res, f') -> cursor res = Some rows ->
  returned res = None.
Proof.
  unfold Find. intros Hok H Hrows.
  apply bind_inv in H as ([sql vals] & f1 & _ & H).
  rewrite bind_read in H.
  destruct (sql.Query _ _ _) as [err|[delivered fail]].
  - inversion H; subst. done.
  - destruct (forNext _ parser _ s) as [[[err rows'] s']|] eqn:Hloop; [|done].
    inversion H; subst. simpl. by eapply forNext_nil.
Qed.

(** With a callback that never fails and leaves the cursor alone, [Find]
    calls it once on every row that the query delivers, in cursor order. *)
Lemma Find_visits_every_row {St} (parser : Parser St) (s : St) (f : TableMap)
      (delivered : list sql.Row) (fail : option sql.error) :
  accessors_return f ->
  never_fails parser -> reads_only parser ->
  (forall sql vals, sql.Query (DB f) sql vals = inr (delivered, fail)) ->
  exists res,
    Find parser s f = Some (res, f) /\
    returned res = None /\
    caller res = visit parser fail delivered s.
Proof.
  intros Hret Hok Hro Hquery. unfold Find.
  rewrite (bind_returns _ _ _ _ _ (FindSql_returns f Hret)), bind_read.
  rewrite Hquery.
  destruct (forNext_visits parser (S (List.length delivered)) fail None
              delivered s Hok Hro) as (rows' & Hloop & _); [lia|].
  unfold sql.open. rewrite Hloop. by eexists.
Qed.

(** The callback fails on the second row of three: it has been called on
    the first and the second row, once each and in this order, its error
    is what [Find] returns, and the cursor is closed. *)
Example Find_callback_error_on_second_row :
  fst <$> Find (failOn "2") [] idOnlyThree
  = Some {| returned := Some "bad row";
            caller := [["1"; "a"; "x"]; ["2"; "b"; "y"]];
            cursor := Some {| sql.avail := [["3"; "c"; "z"]];
                              sql.failure := None;
                              sql.current := Some ["2"; "b"; "y"];
                              sql.lasterr := None;
                              sql.closed := true |} |}.
Proof. reflexivity. Qed.

(** No callback error: one call per row, in cursor order. *)
Example Find_visits_rows_in_order :
  fst <$> Find recordRow [] idOnlyThree
  = Some {| returned := None;
            caller := [["1"; "a"; "x"]; ["2"; "b"; "y"]; ["3"; "c"; "z"]];
            cursor := Some {| sql.avail := [];
                              sql.failure := None;
                              sql.current := Some ["3"; "c"; "z"];
                              sql.lasterr := None;
                              sql.closed := true |} |}.
Proof. reflexivity. Qed.

(** C3.  The query delivers one row and then the iteration fails with
    [connection lost]: [Find] has called the callback on the one row and
    closed the cursor, but it returns nil; the error of the iteration stays
    in the cursor, where only [Err] would report it. *)
Theorem Find_drops_iteration_error :
  exists res,
    fst <$> Find recordRow [] idOnly = Some res /\
    returned res = None /\
    caller res = [["1"; "My Title"; "My Body"]] /\
    (sql.closed <$> cursor res) = Some true /\
    (sql.Err <$> cursor res) = Some (Some "connection lost").
Proof. eexists. repeat split. Qed.

(** ** The binding set only grows *)

(** C9 as stated fails for a name that is bound again: binding [title] on
    a binding set that already holds it does not only add to the field map,
    it puts the new accessor in the place of the one bound before, so the
    field map before the call is not contained in the one after it. *)
Lemma rebinding_replaces_the_entry :
  exists f',
    StringCol "title" (FromString (Some "new")) idOnly = Some (tt, f') /\
    Fields idOnly !! "title" = Some {| Val := FromString None |} /\
    Fields f' !! "title" = Some {| Val := FromString (Some "new") |} /\
    ~ (Fields idOnly ⊆ Fields f').
Proof.
  exists (bound idOnly "title" (FromString (Some "new"))).
  assert (Hold : Fields idOnly !! "title" = Some {| Val := FromString None |})
    by reflexivity.
  assert (Hnew : Fields (bound idOnly "title" (FromString (Some "new")))
                   !! "title"
                 = Some {| Val := FromString (Some "new") |})
    by reflexivity.
  split; [reflexivity|]. split; [exact Hold|]. split; [exact Hnew|].
  intros Hsub. pose proof (lookup_weaken _ _ _ _ Hold Hsub) as Hkept.
  rewrite Hnew in Hkept. inversion Hkept as [Heq].
  apply (f_equal (fun input : TableMapInput => input tt)) in Heq.
  discriminate Heq.
Qed.

(** C9, amended.  [Print], [CreateSql], [FindSql], [GetFields] and
    [GetFieldsWithoutNulls] give back the binding set they were given: same
    database handle, table name, field map and column order.  A bind call
    ([StringCol] or [IntCol]) keeps the handle and the table name, appends
    its name to the column order and sets the entry of its name in the
    field map to its accessor: no name that the field map held is removed
    and the entry of every other name is kept, but the accessor bound
    before to the same name is replaced; only when the name is new does
    the call purely add to the field map. *)
Theorem binding_set_only_grows (f : TableMap) :
  (forall out f', Print f = Some (out, f') -> f' = f) /\
  (forall r f', CreateSql f = Some (r, f') -> f' = f) /\
  (forall r f', FindSql f = Some (r, f') -> f' = f) /\
  (forall r f', GetFields f = Some (r, f') -> f' = f) /\
  (forall r f', GetFieldsWithoutNulls f = Some (r, f') -> f' = f) /\
  (forall (b : BindCall),
      exists f',
        do_bind b f = Some (tt, f') /\
        DB f' = DB f /\
        TableName f' = TableName f /\
        fieldOrder f' = fieldOrder f ++ [bind_name b] /\
        Fields f' !! bind_name b = Some {| Val := stored_input b |} /\
        dom (Fields f) ⊆ dom (Fields f') /\
        (forall n, n <> bind_name b -> Fields f' !! n = Fields f !! n) /\
        (Fields f !! bind_name b = None -> Fields f ⊆ Fields f')).
Proof.
  split; [intros out f'; apply preserves_Print|].
  split; [intros r f'; apply preserves_CreateSql|].
  split; [intros r f'; apply preserves_FindSql|].
  split; [intros r f'; apply preserves_getFieldsHelper|].
  split; [intros r f'; apply preserves_getFieldsHelper|].
  intros b. exists (bound f (bind_name b) (stored_input b)).
  split; [apply do_bind_returns|]. simpl.
  split; [done|]. split; [done|]. split; [done|].
  split; [apply lookup_insert_eq|]. split; [|split].
  - rewrite dom_insert_L. apply union_subseteq_r.
  - intros n Hn. by rewrite lookup_insert_ne.
  - intros Hnew. by apply insert_subseteq.
Qed.

Lemma binding_set_only_grows_witness :
  CreateSql idOnly
  = Some (("INSERT INTO messages (id,title,body) VALUES (?,?,?)" +:+ LF,
           ["1"; "NULL"; "NULL"]), idOnly) /\
  idOnly = idOnly /\
  exists f',
    do_bind (BindString "extra" (FromString None)) idOnly = Some (tt, f') /\
    fieldOrder f' = ["id"; "title"; "body"; "extra"] /\
    Fields idOnly ⊆ Fields f'.
Proof.
  assert (H : CreateSql idOnly
              = Some (("INSERT INTO messages (id,title,body) VALUES (?,?,?)"
                       +:+ LF, ["1"; "NULL"; "NULL"]), idOnly))
    by reflexivity.
  split; [exact H|]. split.
  - exact (proj1 (proj2 (binding_set_only_grows idOnly)) _ _ H).
  - destruct (proj2 (proj2 (proj2 (proj2 (proj2
                (binding_set_only_grows idOnly)))))
                (BindString "extra" (FromString None)))
      as (f' & Hf' & _ & _ & Horder & _ & _ & _ & Hadds).
    exists f'. split; [exact Hf'|]. split.
    + rewrite Horder. reflexivity.
    + apply Hadds. reflexivity.
Defined.

(** ** [strconv.Itoa] followed by [strconv.Atoi] *)

Lemma digit_char (d : Z) :
  (0 <= d < 10)%Z ->
  strconv.is_digit (ascii_of_nat (Z.to_nat (48 + d))) = true /\
  strconv.digit_val (ascii_of_nat (Z.to_nat (48 + d))) = d.
Proof.
  intros Hd.
  assert (Hcases : (d = 0 \/ d = 1 \/ d = 2 \/ d = 3 \/ d = 4 \/ d = 5 \/
                    d = 6 \/ d = 7 \/ d = 8 \/ d = 9)%Z) by lia.
  repeat (destruct Hcases as [->|Hcases]; [split; reflexivity|]).
  subst. split; reflexivity.
Qed.

Lemma append_cons (c : ascii) (s1 s2 : string) :
  String c s1 +:+ s2 = String c (s1 +:+ s2).
Proof. reflexivity. Qed.

Lemma append_assoc (s1 s2 s3 : string) :
  (s1 +:+ s2) +:+ s3 = s1 +:+ (s2 +:+ s3).
Proof.
  induction s1 as [|c s1 IH]; [done|]. by rewrite !append_cons, IH.
Qed.

Lemma digits_app (s1 s2 : string) (acc : Z) :
  strconv.digits (s1 +:+ s2) acc
  = match strconv.digits s1 acc with
    | Some acc' => strconv.digits s2 acc'
    | None => None
    end.
Proof.
  revert acc. induction s1 as [|c s1 IH]; intros acc; [done|].
  rewrite append_cons. cbn [strconv.digits].
  destruct (strconv.is_digit c); [apply IH|done].
Qed.

Lemma utoa_acc (fuel : nat) (n : Z) (acc : string) :
  strconv.utoa fuel n acc = strconv.utoa fuel n "" +:+ acc.
Proof.
  revert n acc. induction fuel as [|fuel IH]; intros n acc; simpl; [done|].
  destruct (n <? 10)%Z; [done|].
  rewrite (IH _ (String _ acc)), (IH _ (String _ "")).
  by rewrite append_assoc.
Qed.

Lemma digits_utoa (fuel : nat) (n : Z) :
  (0 <= n < 10 ^ Z.of_nat fuel)%Z ->
  exists k, forall acc,
    strconv.digits (strconv.utoa fuel n "") acc = Some (acc * k + n)%Z.
Proof.
  revert n. induction fuel as [|fuel IH]; intros n Hn.
  - simpl in Hn. exists 1%Z. intros acc. simpl. f_equal. lia.
  - cbn [strconv.utoa].
    destruct (digit_char (n mod 10)) as [Hdigit Hval];
      [apply Z.mod_pos_bound; lia|].
    destruct (n <? 10)%Z eqn:Hsmall.
    + apply Z.ltb_lt in Hsmall. exists 10%Z. intros acc.
      cbn [strconv.digits]. rewrite Hdigit, Hval. f_equal.
      rewrite Z.mod_small by lia. lia.
    + apply Z.ltb_ge in Hsmall.
      destruct (IH (n / 10)%Z) as [k Hk].
      { split; [apply Z.div_pos; lia|].
        apply Z.div_lt_upper_bound; [lia|].
        rewrite Nat2Z.inj_succ, Z.pow_succ_r in Hn by lia. lia. }
      exists (k * 10)%Z. intros acc.
      rewrite utoa_acc, digits_app, Hk. cbn [strconv.digits].
      rewrite Hdigit, Hval. f_equal.
      pose proof (Z.div_mod n 10). lia.
Qed.

Lemma utoa_starts_with_digit (fuel : nat) (n : Z) (acc : string) :
  (0 <= n)%Z -> (0 < fuel \/ starts_with_digit acc) ->
  starts_with_digit (strconv.utoa fuel n acc).
Proof.
  revert n acc. induction fuel as [|fuel IH]; intros n acc Hn Hacc.
  - simpl. destruct Hacc; [lia|done].
  - cbn [strconv.utoa].
    assert (Hhead : starts_with_digit
                      (String (ascii_of_nat (Z.to_nat (48 + n mod 10))) acc)).
    { simpl. apply digit_char, Z.mod_pos_bound. lia. }
    destruct (n <? 10)%Z; [done|].
    apply IH; [apply Z.div_pos; lia|by right].
Qed.

Lemma Atoi_unsigned (s : string) :
  starts_with_digit s ->
  strconv.Atoi s
  = match strconv.digits s 0 with
    | Some n =>
        if (strconv.minInt <=? n)%Z && (n <=? strconv.maxInt)%Z
        then Some n else None
    | None => None
    end.
Proof.
  destruct s as [|c s]; [done|]. simpl.
  destruct c as [[] [] [] [] [] [] [] []]; simpl; try done.
Qed.

Lemma Atoi_negative (s : string) :
  starts_with_digit s ->
  strconv.Atoi (String "-" s)
  = match strconv.digits s 0 with
    | Some n =>
        if (strconv.minInt <=? - n)%Z && (- n <=? strconv.maxInt)%Z
        then Some (- n)%Z else None
    | None => None
    end.
Proof. destruct s as [|c s]; [done|]. done. Qed.

(** Every [int] written by [Itoa] is read back by [Atoi]. *)
Lemma Atoi_Itoa (i : Z) :
  (strconv.minInt <= i <= strconv.maxInt)%Z ->
  strconv.Atoi (strconv.Itoa i) = Some i.
Proof.
  intros Hi. unfold strconv.Itoa.
  assert (Hmin : strconv.minInt = (-9223372036854775808)%Z) by reflexivity.
  assert (Hmax : strconv.maxInt = 9223372036854775807%Z) by reflexivity.
  assert (Hpow : (10 ^ Z.of_nat 20 = 100000000000000000000)%Z) by reflexivity.
  destruct (i <? 0)%Z eqn:Hneg.
  - apply Z.ltb_lt in Hneg.
    destruct (digits_utoa 20 (- i)) as [k Hk]; [lia|].
    change ("-" +:+ strconv.utoa 20 (- i) "")
      with (String "-" (strconv.utoa 20 (- i) "")).
    rewrite Atoi_negative
      by (apply utoa_starts_with_digit; [lia|left; lia]).
    rewrite Hk. replace (- (0 * k + - i))%Z with i by lia.
    replace ((strconv.minInt <=? i)%Z && (i <=? strconv.maxInt)%Z) with true;
      [done|].
    symmetry. apply andb_true_iff. split; apply Z.leb_le; lia.
  - apply Z.ltb_ge in Hneg.
    destruct (digits_utoa 20 i) as [k Hk]; [lia|].
    rewrite Atoi_unsigned
      by (apply utoa_starts_with_digit; [lia|left; lia]).
    rewrite Hk. replace (0 * k + i)%Z with i by lia.
    replace ((strconv.minInt <=? i)%Z && (i <=? strconv.maxInt)%Z) with true;
      [done|].
    symmetry. apply andb_true_iff. split; apply Z.leb_le; lia.
Qed.

(** ** More on the column binders *)

(** X1.  [IntCol] over [FromInt]: an [int] behind a non-nil pointer is
    written by [Itoa], read back by the check of [IntCol], and so always
    kept as a present value with its decimal text; a nil pointer gives the
    absent value. *)
Theorem IntCol_FromInt_keeps_int (f : TableMap) (name : string) (i : Z) :
  (strconv.minInt <= i <= strconv.maxInt)%Z ->
  strconv.Atoi (strconv.Itoa i) = Some i /\
  (exists f',
      IntCol name (FromInt (Some i)) f = Some (tt, f') /\
      field_val f' name
      = Some {| sql.String := strconv.Itoa i; sql.Valid := true |}) /\
  (exists f',
      IntCol name (FromInt None) f = Some (tt, f') /\
      field_val f' name = Some null).
Proof.
  intros Hi. pose proof (Atoi_Itoa i Hi) as Hround.
  split; [done|]. split.
  - eexists. split; [apply IntCol_returns|].
    rewrite field_val_bound. case_decide; [|done].
    unfold inputChecked, FromInt. cbn [sql.String sql.Valid].
    by rewrite Hround.
  - eexists. split; [apply IntCol_returns|].
    rewrite field_val_bound. by case_decide.
Qed.

Lemma IntCol_FromInt_keeps_int_witness :
  strconv.Atoi (strconv.Itoa (-42)) = Some (-42)%Z /\
  (exists f',
      IntCol "id" (FromInt (Some (-42)%Z)) idOnly = Some (tt, f') /\
      field_val f' "id"
      = Some {| sql.String := strconv.Itoa (-42); sql.Valid := true |}) /\
  (exists f',
      IntCol "id" (FromInt None) idOnly = Some (tt, f') /\
      field_val f' "id" = Some null).
Proof.
  apply (IntCol_FromInt_keeps_int idOnly "id" (-42)%Z).
  split; vm_compute; discriminate.
Defined.

(** X2.  What [CreateSql] inserts for a column bound by [IntCol]: the text
    of the accessor's value when that value is present and its text is an
    integer, and the text ["NULL"] otherwise.  The column is the last of
    the order, and its value the last of the value list. *)
Theorem IntCol_renders_integer_or_NULL
        (f : TableMap) (name : string) (input : TableMapInput)
        (v : sql.NullString) :
  accessors_return f ->
  input tt = Some v ->
  exists f' sqlText vals,
    IntCol name input f = Some (tt, f') /\
    CreateSql f'
    = Some ((sqlText,
             vals ++ [match strconv.Atoi (sql.String v) with
                      | Some _ => if sql.Valid v then sql.String v else "NULL"
                      | None => "NULL"
                      end]), f') /\
    List.length vals = List.length (fieldOrder f).
Proof.
  intros Hret Hv.
  set (f' := bound f name (inputChecked input)).
  assert (Hval : field_val f' name = inputChecked input tt)
    by (unfold f'; rewrite field_val_bound; by case_decide).
  assert (Hret' : accessors_return f').
  { apply (bound_all_accessors_return [BindInt name input] f Hret).
    constructor; [by eexists|constructor]. }
  exists f'. eexists. exists (List.map (value_text f') (fieldOrder f)).
  split; [apply IntCol_returns|]. split.
  - rewrite (CreateSql_returns f' Hret'). do 3 f_equal.
    unfold f' at 2. cbn [fieldOrder bound]. rewrite List.map_app.
    f_equal. cbn [List.map]. f_equal.
    unfold value_text, present, value_of. rewrite Hval.
    unfold inputChecked. rewrite Hv.
    by destruct (strconv.Atoi (sql.String v)), (sql.Valid v) eqn:Hvalid;
      simpl; rewrite ?Hvalid.
  - apply List.length_map.
Qed.

Lemma IntCol_renders_integer_or_NULL_witness :
  exists f' sqlText vals,
    IntCol "age" (FromString (Some "abc")) idOnly = Some (tt, f') /\
    CreateSql f' = Some ((sqlText, vals ++ ["NULL"]), f') /\
    List.length vals = List.length (fieldOrder idOnly).
Proof.
  apply (IntCol_renders_integer_or_NULL idOnly "age" (FromString (Some "abc"))
           {| sql.String := "abc"; sql.Valid := true |}).
  - exact idOnly_returns.
  - reflexivity.
Defined.

Lemma bound_all_dom (bs : list BindCall) (f : TableMap) :
  dom (Fields (bound_all bs f))
  = dom (Fields f) ∪ list_to_set (List.map bind_name bs).
Proof.
  revert f. induction bs as [|b bs IH]; intros f; simpl.
  - by rewrite (right_id_L ∅ (∪)).
  - rewrite IH. simpl. rewrite dom_insert_L.
    by rewrite (comm_L (∪) {[bind_name b]}), <- (assoc_L (∪)).
Qed.

Lemma bound_all_DB (bs : list BindCall) (f : TableMap) :
  DB (bound_all bs f) = DB f.
Proof.
  revert f. induction bs as [|b bs IH]; intros f; [done|].
  simpl. by rewrite IH.
Qed.

(** X3.  Bind calls on a fresh binding set keep the field map and the
    column order in step: the order lists the names of the calls, one per
    call, the keys of the map are exactly these names, and so every name of
    the order has an entry in the map; handle and table name are those
    given to [NewTableMap]. *)
Theorem bind_calls_keep_map_and_order
        (db : sql.DB) (tableName : string) (bs : list BindCall) :
  exists f,
    bindAll bs (NewTableMap db tableName) = Some (tt, f) /\
    DB f = db /\
    TableName f = tableName /\
    fieldOrder f = List.map bind_name bs /\
    dom (Fields f) = list_to_set (List.map bind_name bs) /\
    Forall (fun name => is_Some (Fields f !! name)) (fieldOrder f).
Proof.
  exists (bound_all bs (NewTableMap db tableName)).
  assert (Hdom : dom (Fields (bound_all bs (NewTableMap db tableName)))
                 = list_to_set (List.map bind_name bs)).
  { rewrite bound_all_dom. simpl.
    by rewrite dom_empty_L, (left_id_L ∅ (∪)). }
  assert (Horder : fieldOrder (bound_all bs (NewTableMap db tableName))
                   = List.map bind_name bs)
    by (by rewrite bound_all_fieldOrder).
  split; [apply bindAll_returns|]. split; [apply bound_all_DB|].
  split; [apply bound_all_TableName|]. split; [done|]. split; [done|].
  rewrite Horder. apply Forall_forall. intros name Hname.
  apply elem_of_dom. rewrite Hdom. by apply elem_of_list_to_set.
Qed.

(** X4.  In any sequence of bind calls the last call of a name decides the
    accessor of that column, while every call, repeated names included,
    adds one entry to the column order. *)
Theorem last_bind_of_a_name_wins
        (f : TableMap) (pre post : list BindCall) (b : BindCall) :
  ~ In (bind_name b) (List.map bind_name post) ->
  exists f',
    bindAll (pre ++ b :: post) f = Some (tt, f') /\
    field_val f' (bind_name b) = stored_input b tt /\
    fieldOrder f'
    = fieldOrder f ++ List.map bind_name pre
      ++ bind_name b :: List.map bind_name post.
Proof.
  intros Hlast. exists (bound_all (pre ++ b :: post) f).
  split; [apply bindAll_returns|]. split.
  - unfold bound_all. rewrite fold_left_app. cbn [fold_left].
    fold (bound_all pre f).
    fold (bound_all post (bound (bound_all pre f) (bind_name b)
                            (stored_input b))).
    rewrite bound_all_other by done.
    rewrite field_val_bound. by case_decide.
  - rewrite bound_all_fieldOrder, List.map_app. done.
Qed.

Lemma last_bind_of_a_name_wins_witness :
  exists f',
    bindAll ([BindString "title" (FromString (Some "old"))]
             ++ BindString "title" (FromString (Some "new"))
             :: [BindString "body" (FromString None)])
      (NewTableMap flakyDB TABLE_NAME) = Some (tt, f') /\
    field_val f' "title"
    = Some {| sql.String := "new"; sql.Valid := true |} /\
    fieldOrder f' = ["title"; "title"; "body"].
Proof.
  apply (last_bind_of_a_name_wins (NewTableMap flakyDB TABLE_NAME)
           [BindString "title" (FromString (Some "old"))]
           [BindString "body" (FromString None)]
           (BindString "title" (FromString (Some "new")))).
  simpl. intuition discriminate.
Defined.

(** X5.  [GetFields] and [GetFieldsWithoutNulls] return if, and only if,
    every name of the column order has an accessor that can be called and
    returns; a name that the map does not hold, or a nil accessor, makes
    them panic. *)
Theorem getFieldsHelper_returns_iff (inclnull : bool) (f : TableMap) :
  is_Some (getFieldsHelper inclnull f) <-> accessors_return f.
Proof.
  split.
  - intros [r Hr]. destruct (decide (accessors_return f)) as [|Hnot]; [done|].
    by rewrite (getFieldsHelper_panics inclnull f Hnot) in Hr.
  - intros Hret. rewrite (getFieldsHelper_returns inclnull f Hret). by eexists.
Qed.

Lemma getFieldsHelper_returns_iff_witness :
  is_Some (getFieldsHelper true idOnly) /\
  ~ accessors_return {| DB := flakyDB; TableName := TABLE_NAME; Fields := ∅;
                        fieldOrder := ["id"] |}.
Proof.
  split.
  - apply (proj2 (getFieldsHelper_returns_iff true idOnly)).
    exact idOnly_returns.
  - intros Hret.
    apply (proj2 (getFieldsHelper_returns_iff true _)) in Hret.
    destruct Hret as [r Hr]. discriminate Hr.
Defined.

(** ** More on the statement builder *)

(** X6.  For a binding set whose accessors return, [FindSql] selects every
    bound column, filters on exactly the present columns, in order, with
    one predicate [col=?] each, and passes one value per predicate: the
    string of that column's present value. *)
Theorem FindSql_one_value_per_predicate (f : TableMap) :
  accessors_return f ->
  exists cols vals,
    FindSql f
    = Some (("SELECT " +:+ Join (fieldOrder f) "," +:+ " FROM "
             +:+ TableName f +:+ " WHERE "
             +:+ Join (List.map (fun col => col +:+ "=?") cols) ",",
             vals), f) /\
    cols = List.filter (present f) (fieldOrder f) /\
    Forall2 (fun col val =>
               field_val f col
               = Some {| sql.String := val; sql.Valid := true |})
      cols vals.
Proof.
  intros Hret.
  exists (present_cols f), (List.map (value_text f) (present_cols f)).
  split; [apply (FindSql_returns f Hret)|].
  split; [apply present_cols_filter|].
  apply Forall2_fmap_r, Forall_Forall2_diag, Forall_forall.
  intros name Hname. apply list_elem_of_In, kept_present in Hname.
  destruct Hname as [_ [Hp|?]]; [|done]. unfold compose.
  rewrite (value_text_present f name Hp). by apply present_field_val.
Qed.

Lemma FindSql_one_value_per_predicate_witness :
  exists cols vals,
    FindSql idOnly
    = Some (("SELECT " +:+ Join (fieldOrder idOnly) "," +:+ " FROM "
             +:+ TableName idOnly +:+ " WHERE "
             +:+ Join (List.map (fun col => col +:+ "=?") cols) ",",
             vals), idOnly) /\
    cols = List.filter (present idOnly) (fieldOrder idOnly) /\
    Forall2 (fun col val =>
               field_val idOnly col
               = Some {| sql.String := val; sql.Valid := true |})
      cols vals.
Proof.
  apply (FindSql_one_value_per_predicate idOnly). exact idOnly_returns.
Defined.

(** X7.  A binding set without any bind call: [CreateSql] returns an
    INSERT with empty column and placeholder lists, [FindSql] a SELECT
    with an empty select list and an empty WHERE clause, both with no
    values; neither panics nor reports an error. *)
Theorem statements_of_fresh_binding_set (db : sql.DB) (tableName : string) :
  CreateSql (NewTableMap db tableName)
  = Some (("INSERT INTO " +:+ tableName +:+ " () VALUES ()" +:+ LF, []),
          NewTableMap db tableName) /\
  FindSql (NewTableMap db tableName)
  = Some (("SELECT  FROM " +:+ tableName +:+ " WHERE ", []),
          NewTableMap db tableName).
Proof.
  pose proof (NewTableMap_accessors_return db tableName) as Hret. split.
  - by rewrite (CreateSql_returns _ Hret).
  - by rewrite (FindSql_returns _ Hret).
Qed.

(** X8.  [CreateSql] does not tell an absent string from the present
    string [NULL]: binding a column to a nil [*string] and binding it to a
    pointer to the text [NULL] give the same statement and the same
    values. *)
Theorem CreateSql_confuses_absent_with_NULL_text
        (f : TableMap) (name : string) :
  accessors_return f ->
  exists f1 f2 r,
    StringCol name (FromString None) f = Some (tt, f1) /\
    StringCol name (FromString (Some "NULL")) f = Some (tt, f2) /\
    fst <$> CreateSql f1 = Some r /\
    fst <$> CreateSql f2 = Some r.
Proof.
  intros Hret.
  set (f1 := bound f name (FromString None)).
  set (f2 := bound f name (FromString (Some "NULL"))).
  assert (Hret1 : accessors_return f1).
  { apply (bound_all_accessors_return [BindString name (FromString None)]
             f Hret). constructor; [by eexists|constructor]. }
  assert (Hret2 : accessors_return f2).
  { apply (bound_all_accessors_return
             [BindString name (FromString (Some "NULL"))] f Hret).
    constructor; [by eexists|constructor]. }
  assert (Hsame : forall n, value_text f2 n = value_text f1 n).
  { intros n. unfold value_text, present, value_of, f1, f2.
    rewrite !field_val_bound. by case_decide. }
  exists f1, f2. eexists.
  split; [done|]. split; [done|].
  rewrite (CreateSql_returns f1 Hret1), (CreateSql_returns f2 Hret2).
  split; [done|]. simpl. do 2 f_equal.
  apply List.map_ext, Hsame.
Qed.

Lemma CreateSql_confuses_absent_with_NULL_text_witness :
  exists f1 f2 r,
    StringCol "note" (FromString None) idOnly = Some (tt, f1) /\
    StringCol "note" (FromString (Some "NULL")) idOnly = Some (tt, f2) /\
    fst <$> CreateSql f1 = Some r /\
    fst <$> CreateSql f2 = Some r.
Proof.
  apply (CreateSql_confuses_absent_with_NULL_text idOnly "note").
  exact idOnly_returns.
Defined.

(** X9.  [Create] hands to [Exec] the database handle of the binding set,
    the INSERT text of [CreateSql] and its value list, returns what [Exec]
    answers, result and error alike, and leaves the binding set as it was;
    when an accessor of the order cannot be called it panics before [Exec]
    is reached. *)
Theorem Create_executes_insert
        {Result : Type}
        (Exec : sql.DB -> string -> list string -> Result * option sql.error)
        (f : TableMap) :
  (accessors_return f ->
   Create Result Exec f
   = Some (Exec (DB f)
             ("INSERT INTO " +:+ TableName f +:+ " ("
              +:+ Join (fieldOrder f) "," +:+ ") VALUES ("
              +:+ Join (replicate (List.length (fieldOrder f)) "?") ","
              +:+ ")" +:+ LF)
             (List.map (value_text f) (fieldOrder f)), f)) /\
  (~ accessors_return f -> Create Result Exec f = None).
Proof.
  split; intros Hret; unfold Create.
  - by rewrite (bind_returns _ _ _ _ _ (CreateSql_returns f Hret)).
  - apply bind_panics. unfold CreateSql. apply bind_panics.
    by apply getFieldsHelper_panics.
Qed.

Lemma Create_executes_insert_witness :
  Create nat (fun _ sql vals => (List.length vals, None)) idOnly
  = Some ((3, None), idOnly).
Proof.
  apply (proj1 (Create_executes_insert
                  (fun _ sql vals => (List.length vals, None)) idOnly)).
  exact idOnly_returns.
Defined.

(** ** The example record *)

(** X10.  For every [Message] (its [ID] nil or an [int]), [toTableMap]
    binds the columns [id], [title], [body] in this order; [CreateSql]
    then inserts the decimal text of the id and the two strings, with the
    text ["NULL"] for each nil field; and [FindSql] filters on exactly the
    fields that are not nil, with their values in the same order. *)
Theorem toTableMap_statements (m : Message) (db : sql.DB) :
  int_ptr (ID m) ->
  exists f,
    toTableMap m db = Some f /\
    fieldOrder f = ["id"; "title"; "body"] /\
    CreateSql f
    = Some (("INSERT INTO messages (id,title,body) VALUES (?,?,?)" +:+ LF,
             [or_NULL (strconv.Itoa <$> ID m); or_NULL (Title m);
              or_NULL (Body m)]), f) /\
    FindSql f
    = Some (("SELECT id,title,body FROM messages WHERE "
             +:+ Join (List.map (fun col => col +:+ "=?")
                         (if_set (ID m) "id" ++ if_set (Title m) "title"
                          ++ if_set (Body m) "body")) ",",
             option_list (strconv.Itoa <$> ID m) ++ option_list (Title m)
             ++ option_list (Body m)), f).
Proof.
  intros Hid.
  set (bs := [BindInt "id" (FromInt (ID m));
              BindString "title" (FromString (Title m));
              BindString "body" (FromString (Body m))]).
  set (f := bound_all bs (NewTableMap db TABLE_NAME)).
  assert (Hret : accessors_return f).
  { apply bound_all_accessors_return; [apply NewTableMap_accessors_return|].
    unfold bs, FromInt, FromString.
    repeat constructor; simpl; by destruct m as [[?|] [?|] [?|]]. }
  assert (Hnd : List.NoDup (List.map bind_name bs))
    by (repeat constructor; simpl; intuition discriminate).
  assert (Hvid : field_val f "id"
                 = Some (match ID m with
                         | Some i => {| sql.String := strconv.Itoa i;
                                        sql.Valid := true |}
                         | None => null
                         end)).
  { transitivity (stored_input (BindInt "id" (FromInt (ID m))) tt).
    { apply (bound_all_own bs _ (BindInt "id" (FromInt (ID m))) Hnd).
      left; reflexivity. }
    simpl. unfold inputChecked, FromInt.
    destruct (ID m) as [i|]; [|reflexivity].
    cbn [sql.String sql.Valid]. by rewrite (Atoi_Itoa i Hid). }
  assert (Hvtitle : field_val f "title" = FromString (Title m) tt).
  { apply (bound_all_own bs _ (BindString "title" (FromString (Title m))) Hnd).
    right; left; reflexivity. }
  assert (Hvbody : field_val f "body" = FromString (Body m) tt).
  { apply (bound_all_own bs _ (BindString "body" (FromString (Body m))) Hnd).
    right; right; left; reflexivity. }
  assert (Horder : fieldOrder f = ["id"; "title"; "body"])
    by (unfold f; by rewrite bound_all_fieldOrder).
  assert (Hname : TableName f = TABLE_NAME)
    by (unfold f; by rewrite bound_all_TableName).
  assert (Hpid : present f "id"
                 = match ID m with Some _ => true | None => false end)
    by (unfold present, value_of; rewrite Hvid; by destruct (ID m)).
  assert (Hptitle : present f "title"
                    = match Title m with Some _ => true | None => false end)
    by (unfold present, value_of; rewrite Hvtitle; by destruct (Title m)).
  assert (Hpbody : present f "body"
                   = match Body m with Some _ => true | None => false end)
    by (unfold present, value_of; rewrite Hvbody; by destruct (Body m)).
  assert (Htid : value_text f "id" = or_NULL (strconv.Itoa <$> ID m))
    by (unfold value_text, value_of; rewrite Hpid, Hvid; by destruct (ID m)).
  assert (Httitle : value_text f "title" = or_NULL (Title m))
    by (unfold value_text, value_of; rewrite Hptitle, Hvtitle;
        by destruct (Title m)).
  assert (Htbody : value_text f "body" = or_NULL (Body m))
    by (unfold value_text, value_of; rewrite Hpbody, Hvbody;
        by destruct (Body m)).
  exists f. split; [by destruct m|]. split; [done|].
  rewrite (CreateSql_returns f Hret), (FindSql_returns f Hret).
  rewrite present_cols_filter, Horder, Hname. cbn [List.filter List.map].
  rewrite Hpid, Hptitle, Hpbody.
  destruct (ID m) as [i|], (Title m) as [t|], (Body m) as [b|];
    cbn [List.map]; rewrite ?Htid, ?Httitle, ?Htbody; split; reflexivity.
Qed.

Lemma toTableMap_statements_witness :
  exists f,
    toTableMap {| ID := Some 7%Z; Title := None; Body := Some "text" |}
      flakyDB = Some f /\
    fieldOrder f = ["id"; "title"; "body"] /\
    CreateSql f
    = Some (("INSERT INTO messages (id,title,body) VALUES (?,?,?)" +:+ LF,
             ["7"; "NULL"; "text"]), f) /\
    FindSql f
    = Some (("SELECT id,title,body FROM messages WHERE id=?,body=?",
             ["7"; "text"]), f).
Proof.
  apply (toTableMap_statements
           {| ID := Some 7%Z; Title := None; Body := Some "text" |} flakyDB).
  simpl. split; vm_compute; discriminate.
Defined.

(** ** [Print] *)

Lemma print_loop (f : TableMap) (l : list (string * TableMapField))
      (acc : list string) :
  Forall (fun p => is_Some (Val p.2 tt)) l ->
  forRange l
    (fun out '(colname, slfield) =>
       v <- call (Val slfield) ;;
       let output := if sql.Valid v then sql.String v else "<null>" in
       ret (out ++ [colname +:+ " : " +:+ output +:+ LF]))
    acc f
  = Some (acc ++ List.map (fun p => print_line p.1 (default null (Val p.2 tt)))
                   l, f).
Proof.
  intros Hl. revert acc.
  induction Hl as [|[colname slfield] l [v Hv] _ IH]; intros acc;
    cbn [forRange List.map].
  - by rewrite app_nil_r.
  - simpl in Hv.
    assert (Hcall : call (Val slfield) f = Some (v, f))
      by (unfold call; by rewrite Hv).
    rewrite (bind_returns _ _ _ _ _ (bind_returns _ _ _ _ _ Hcall)).
    unfold ret at 1. rewrite IH, <- app_assoc. simpl. by rewrite Hv.
Qed.

(** X11.  [Print] walks the field map, not the column order: when every
    accessor of the map returns, it writes one line per name of the map
    (a name bound twice has one line), the line of a name being
    [name : text] for a present value and [name : <null>] for an absent
    one, and it leaves the binding set as it was. *)
Theorem Print_writes_a_line_per_bound_name (f : TableMap) :
  map_Forall (fun _ fld => is_Some (Val fld tt)) (Fields f) ->
  exists out,
    Print f = Some (out, f) /\
    List.length out = size (Fields f) /\
    (forall name fld v,
        Fields f !! name = Some fld -> Val fld tt = Some v ->
        (name +:+ " : "
         +:+ (if sql.Valid v then sql.String v else "<null>") +:+ LF) ∈ out).
Proof.
  intros Hall.
  exists (List.map (fun p => print_line p.1 (default null (Val p.2 tt)))
            (map_to_list (Fields f))).
  split; [|split].
  - unfold Print. rewrite bind_read.
    rewrite (print_loop f (map_to_list (Fields f)) []); [done|].
    apply map_Forall_to_list in Hall.
    eapply Forall_impl; [exact Hall|]. by intros [name fld].
  - by rewrite List.length_map, length_map_to_list.
  - intros name fld v Hlookup Hv.
    apply list_elem_of_In, List.in_map_iff. exists (name, fld). split.
    + simpl. by rewrite Hv.
    + by apply list_elem_of_In, elem_of_map_to_list.
Qed.

Lemma Print_writes_a_line_per_bound_name_witness :
  exists out,
    Print boundTwice = Some (out, boundTwice) /\
    List.length out = size (Fields boundTwice) /\
    (forall name fld v,
        Fields boundTwice !! name = Some fld -> Val fld tt = Some v ->
        (name +:+ " : "
         +:+ (if sql.Valid v then sql.String v else "<null>") +:+ LF) ∈ out).
Proof.
  apply (Print_writes_a_line_per_bound_name boundTwice).
  apply map_Forall_to_list. vm_compute. repeat constructor. by eexists.
Defined.

(** ** More on [Find] *)

(** The callback leaves the cursor alone, succeeds on the rows [pre] and
    fails on the row [r] after them: the loop stops there, with the rows
    [post] left in the cursor. *)
Lemma forNext_stops {St} (parser : Parser St) (fuel : nat)
      (fail : option sql.error) (cur : option sql.Row)
      (pre post : list sql.Row) (r : sql.Row) (s : St) (e : sql.error) :
  reads_only parser ->
  Forall (fun r' => forall rest s',
              fst (fst (runCallback (parser s') (at_row fail r' rest)))
              = None) pre ->
  (forall s', fst (fst (runCallback (parser s') (at_row fail r post)))
              = Some e) ->
  List.length pre < fuel ->
  forNext fuel parser
    {| sql.avail := pre ++ r :: post; sql.failure := fail;
       sql.current := cur; sql.lasterr := None; sql.closed := false |} s
  = Some (Some e, at_row fail r post,
          snd (runCallback
                 (parser (visit_before parser fail pre (r :: post) s))
                 (at_row fail r post))).
Proof.
  intros Hro Hpre Hbad. revert fuel cur s.
  induction Hpre as [|r' pre Hr' _ IH]; intros fuel cur s Hfuel;
    (destruct fuel as [|fuel]; [simpl in Hfuel; lia|]);
    cbn [forNext app visit_before]; unfold sql.Next;
    cbn [sql.closed sql.avail sql.failure sql.lasterr].
  - fold (at_row fail r post). specialize (Hbad s).
    specialize (Hro s (at_row fail r post)).
    destruct (runCallback (parser s) (at_row fail r post))
      as [[err rows2] s1].
    simpl in Hbad, Hro. by subst err rows2.
  - fold (at_row fail r' (pre ++ r :: post)).
    specialize (Hr' (pre ++ r :: post) s).
    specialize (Hro s (at_row fail r' (pre ++ r :: post))).
    destruct (runCallback (parser s) (at_row fail r' (pre ++ r :: post)))
      as [[err rows2] s1].
    simpl in Hr', Hro. subst err rows2. apply IH. simpl in Hfuel. lia.
Qed.

Lemma recordRow_never_fails : never_fails recordRow.
Proof. by intros s rows. Qed.

Lemma recordRow_reads_only : reads_only recordRow.
Proof. by intros s rows. Qed.

Lemma failOn_reads_only (bad : string) : reads_only (failOn bad).
Proof.
  intros s rows. unfold failOn. cbn [runCallback].
  destruct (sql.Scan rows) as [[|c row]|]; [done| |done].
  by destruct (String.eqb c bad).
Qed.

(** A callback that advances the cursor itself is not called on the rows
    it takes: with three rows, [skipRow] is called on the first and on the
    third. *)
Example Find_with_callback_that_advances :
  fst <$> Find skipRow 0 idOnlyThree
  = Some {| returned := None;
            caller := 2;
            cursor := Some {| sql.avail := [];
                              sql.failure := None;
                              sql.current := Some ["3"; "c"; "z"];
                              sql.lasterr := None;
                              sql.closed := true |} |}.
Proof. reflexivity. Qed.

(** A callback that closes the cursor ends the loop after its first
    call. *)
Example Find_with_callback_that_closes :
  fst <$> Find closeEarly 0 idOnlyThree
  = Some {| returned := None;
            caller := 1;
            cursor := Some {| sql.avail := [["2"; "b"; "y"]; ["3"; "c"; "z"]];
                              sql.failure := None;
                              sql.current := Some ["1"; "a"; "x"];
                              sql.lasterr := None;
                              sql.closed := true |} |}.
Proof. reflexivity. Qed.

(** X12.  When [Query] answers the statement of [FindSql] with an error,
    [Find] returns that error, never calls the callback (the caller's
    state is untouched), opens no cursor and leaves the binding set as it
    was. *)
Theorem Find_returns_query_error
        {St} (parser : Parser St) (s : St) (f : TableMap)
        (sqlText : string) (vals : list string) (e : sql.error) :
  FindSql f = Some ((sqlText, vals), f) ->
  sql.Query (DB f) sqlText vals = inl e ->
  Find parser s f
  = Some ({| returned := Some e; caller := s; cursor := None |}, f).
Proof.
  intros Hsql Hquery. unfold Find.
  rewrite (bind_returns _ _ _ _ _ Hsql), bind_read. by rewrite Hquery.
Qed.

Lemma Find_returns_query_error_witness :
  Find recordRow []
    {| DB := {| sql.Query := fun _ _ => inl "no such table" |};
       TableName := TABLE_NAME; Fields := ∅; fieldOrder := [] |}
  = Some ({| returned := Some "no such table"; caller := [];
             cursor := None |},
          {| DB := {| sql.Query := fun _ _ => inl "no such table" |};
             TableName := TABLE_NAME; Fields := ∅; fieldOrder := [] |}).
Proof.
  apply (Find_returns_query_error recordRow []
           {| DB := {| sql.Query := fun _ _ => inl "no such table" |};
              TableName := TABLE_NAME; Fields := ∅; fieldOrder := [] |}
           "SELECT  FROM messages WHERE " [] "no such table");
    reflexivity.
Defined.

(** X13.  When [Query] delivers rows and the iteration ends without a
    failure, a callback that never fails and that leaves the cursor as it
    finds it (it may scan the row, but neither advances nor closes the
    cursor) is called exactly once on every row, in cursor order; [Find]
    then returns nil with the cursor exhausted and closed. *)
Theorem Find_calls_callback_on_every_row
        {St} (parser : Parser St) (s : St) (f : TableMap)
        (sqlText : string) (vals : list string) (delivered : list sql.Row) :
  FindSql f = Some ((sqlText, vals), f) ->
  sql.Query (DB f) sqlText vals = inr (delivered, None) ->
  never_fails parser ->
  reads_only parser ->
  exists rows,
    Find parser s f
    = Some ({| returned := None;
               caller := visit parser None delivered s;
               cursor := Some rows |}, f) /\
    sql.avail rows = [] /\
    sql.closed rows = true /\
    sql.Err rows = None.
Proof.
  intros Hsql Hquery Hok Hro. unfold Find.
  rewrite (bind_returns _ _ _ _ _ Hsql), bind_read. rewrite Hquery.
  destruct (forNext_visits parser (S (List.length delivered)) None None
              delivered s Hok Hro)
    as (rows' & Hrun & Havail & Hclosed & Herr); [lia|].
  unfold sql.open. rewrite Hrun. exists (sql.Close rows').
  by repeat split.
Qed.

Lemma Find_calls_callback_on_every_row_witness :
  exists rows,
    Find recordRow [] idOnlyThree
    = Some ({| returned := None;
               caller := visit recordRow None
                           [["1"; "a"; "x"]; ["2"; "b"; "y"]; ["3"; "c"; "z"]]
                           [];
               cursor := Some rows |}, idOnlyThree) /\
    sql.avail rows = [] /\
    sql.closed rows = true /\
    sql.Err rows = None.
Proof.
  apply (Find_calls_callback_on_every_row recordRow [] idOnlyThree
           "SELECT id FROM messages WHERE id=?" ["1"]).
  - reflexivity.
  - reflexivity.
  - exact recordRow_never_fails.
  - exact recordRow_reads_only.
Defined.

(** X14.  For a callback that leaves the cursor as it finds it: when it
    succeeds on the first rows and fails on the row after them, [Find]
    returns the callback's error at once; the callback has been called
    once on each of the first rows and once on the failing row, in cursor
    order, the rows behind it are still in the cursor, unread, and the
    cursor is closed. *)
Theorem Find_stops_at_first_callback_error
        {St} (parser : Parser St) (s : St) (f : TableMap)
        (sqlText : string) (vals : list string)
        (pre post : list sql.Row) (r : sql.Row)
        (fail : option sql.error) (e : sql.error) :
  FindSql f = Some ((sqlText, vals), f) ->
  sql.Query (DB f) sqlText vals = inr (pre ++ r :: post, fail) ->
  reads_only parser ->
  Forall (fun r' => forall rest s',
              fst (fst (runCallback (parser s') (at_row fail r' rest)))
              = None) pre ->
  (forall s', fst (fst (runCallback (parser s') (at_row fail r post)))
              = Some e) ->
  Find parser s f
  = Some ({| returned := Some e;
             caller := snd (runCallback
                              (parser (visit_before parser fail pre
                                         (r :: post) s))
                              (at_row fail r post));
             cursor := Some {| sql.avail := post; sql.failure := fail;
                               sql.current := Some r; sql.lasterr := None;
                               sql.closed := true |} |}, f).
Proof.
  intros Hsql Hquery Hro Hpre Hbad. unfold Find.
  rewrite (bind_returns _ _ _ _ _ Hsql), bind_read. rewrite Hquery.
  unfold sql.open.
  rewrite (forNext_stops parser _ fail None pre post r s e Hro Hpre Hbad);
    [done|].
  rewrite List.length_app. simpl. lia.
Qed.

Lemma Find_stops_at_first_callback_error_witness :
  Find (failOn "2") [] idOnlyThree
  = Some ({| returned := Some "bad row";
             caller := [["1"; "a"; "x"]; ["2"; "b"; "y"]];
             cursor := Some {| sql.avail := [["3"; "c"; "z"]];
                               sql.failure := None;
                               sql.current := Some ["2"; "b"; "y"];
                               sql.lasterr := None;
                               sql.closed := true |} |}, idOnlyThree).
Proof.
  apply (Find_stops_at_first_callback_error (failOn "2") [] idOnlyThree
           "SELECT id FROM messages WHERE id=?" ["1"]
           [["1"; "a"; "x"]] [["3"; "c"; "z"]] ["2"; "b"; "y"]
           None "bad row").
  - reflexivity.
  - reflexivity.
  - exact (failOn_reads_only "2").
  - repeat constructor.
  - reflexivity.
Defined.



(** ** The check of [IntCol], and nil accessors *)

(** X16.  The accessor that [IntCol] stores returns exactly when the
    accessor it wraps returns; every present value it returns has integer
    text; and checking twice is the same as checking once. *)
Theorem inputChecked_guarantees (input : TableMapInput) :
  (inputChecked input tt = None <-> input tt = None) /\
  (forall r, inputChecked input tt = Some r -> sql.Valid r = true ->
             is_Some (strconv.Atoi (sql.String r))) /\
  inputChecked (inputChecked input) tt = inputChecked input tt.
Proof.
  unfold inputChecked.
  destruct (input tt) as [v|] eqn:Hv; [|by repeat split].
  destruct (strconv.Atoi (sql.String v)) as [n|] eqn:Hatoi,
           (sql.Valid v) eqn:Hvalid.
  - split; [by split|]. split.
    + intros r Hr _. inversion Hr; subst. by eexists.
    + by rewrite Hatoi, Hvalid.
  - split; [by split|]. split; [by intros r Hr; inversion Hr|done].
  - split; [by split|]. split; [by intros r Hr; inversion Hr|done].
  - split; [by split|]. split; [by intros r Hr; inversion Hr|done].
Qed.

Lemma inputChecked_guarantees_witness :
  is_Some (strconv.Atoi "12") /\ inputChecked nilInput tt = None.
Proof.
  split.
  - apply (proj1 (proj2 (inputChecked_guarantees (FromString (Some "12"))))
             {| sql.String := "12"; sql.Valid := true |});
      reflexivity.
  - apply (proj2 (proj1 (inputChecked_guarantees nilInput))). reflexivity.
Defined.

(** X17.  Both binders accept a nil accessor without complaint, but the
    binding set they leave is unusable: [GetFields],
    [GetFieldsWithoutNulls], [CreateSql], [FindSql] and [Find] all panic
    on it. *)
Theorem nil_accessor_panics_on_use
        {St} (parser : Parser St) (s : St) (b : BindCall) (f : TableMap) :
  bind_input b tt = None ->
  exists f',
    do_bind b f = Some (tt, f') /\
    GetFields f' = None /\
    GetFieldsWithoutNulls f' = None /\
    CreateSql f' = None /\
    FindSql f' = None /\
    Find parser s f' = None.
Proof.
  intros Hnil. exists (bound f (bind_name b) (stored_input b)).
  set (f' := bound f (bind_name b) (stored_input b)).
  assert (Hnot : ~ accessors_return f').
  { intros Hret. unfold accessors_return, f' in Hret.
    cbn [fieldOrder bound] in Hret.
    apply Forall_app in Hret as [_ Hlast].
    apply Forall_cons in Hlast as [[v Hv] _].
    rewrite field_val_bound in Hv. case_decide; [|done].
    destruct b as [name input|name input]; simpl in *.
    - by rewrite Hnil in Hv.
    - unfold inputChecked in Hv. by rewrite Hnil in Hv. }
  assert (Hpanic : forall inclnull, getFieldsHelper inclnull f' = None)
    by (intros inclnull; by apply getFieldsHelper_panics).
  assert (Hfind : FindSql f' = None)
    by (unfold FindSql; apply bind_panics, Hpanic).
  split; [apply do_bind_returns|].
  split; [apply Hpanic|]. split; [apply Hpanic|].
  split; [unfold CreateSql; apply bind_panics, Hpanic|].
  split; [done|]. unfold Find. by apply bind_panics.
Qed.

Lemma nil_accessor_panics_on_use_witness :
  exists f',
    do_bind (BindInt "id" nilInput) idOnly = Some (tt, f') /\
    GetFields f' = None /\
    GetFieldsWithoutNulls f' = None /\
    CreateSql f' = None /\
    FindSql f' = None /\
    Find recordRow [] f' = None.
Proof.
  apply (nil_accessor_panics_on_use recordRow [] (BindInt "id" nilInput)
           idOnly).
  reflexivity.
Defined.
